(** * Play-by-play scorekeeping pipeline: shallow embedding and properties

    The embedding follows [src/pipelines/live-play-feed.ts] (live play
    extraction, state derivation, tweet formatting) and
    [src/scorekeeping/baseball.ts] (play parser, scoring-decision
    resolution, player registry, play unifier).

    Conventions of the model:
    - a JavaScript string is a [string] of 8-bit code units read as
      Latin-1; [\s], [\w], [\d] and [\b] are the JavaScript classes
      restricted to that range;
    - a JavaScript number that the code only ever reads as a count, a
      score, an inning or an index is a [Z] ([Math.floor] is then the
      identity); the location confidence is a rational;
    - [null]/[undefined] are [None];
    - a [Map] is a [gmap], a [Set] of indices a [gset];
    - the HTML-entity decoder ([he.decode]) and the SHA-1 digest are
      external to the repository and enter as type-class parameters. *)

From Stdlib Require Import ZArith NArith List String Ascii Bool Lia QArith Qround.
From Stdlib Require Import DecimalString DecimalPos DecimalZ Finite.
From stdpp Require Import gmap strings.

Import ListNotations.
Local Open Scope Z_scope.

(** ** Code units and character classes *)

Definition code (c : ascii) : N := N_of_ascii c.

Definition inRange (lo hi : N) (c : ascii) : bool :=
  ((lo <=? code c) && (code c <=? hi))%N.

Definition isDigit (c : ascii) : bool := inRange 48 57 c.
Definition isUpper (c : ascii) : bool := inRange 65 90 c.
Definition isLower (c : ascii) : bool := inRange 97 122 c.
Definition isAlpha (c : ascii) : bool := isUpper c || isLower c.

(** [\w] is [[A-Za-z0-9_]]. *)
Definition isWord (c : ascii) : bool :=
  isAlpha c || isDigit c || (code c =? 95)%N.

(** [\s] within Latin-1: TAB, LF, VT, FF, CR, space and U+00A0. *)
Definition isSpace (c : ascii) : bool :=
  inRange 9 13 c || (code c =? 32)%N || (code c =? 160)%N.

(** [String.prototype.toLowerCase] on one code unit: A-Z and the Latin-1
    capitals U+00C0..U+00DE (except the multiplication sign U+00D7). *)
Definition lowerChar (c : ascii) : ascii :=
  if isUpper c || inRange 192 214 c || inRange 216 222 c
  then ascii_of_N (code c + 32)
  else c.

(** [String.prototype.toUpperCase] on one code unit.  U+00DF maps to the
    two units "SS"; the micro sign and y-diaeresis map outside Latin-1 and
    are left as they are. *)
Definition upperChar (c : ascii) : string :=
  if isLower c || inRange 224 246 c || inRange 248 254 c
  then String (ascii_of_N (code c - 32)) EmptyString
  else if (code c =? 223)%N then "SS"%string
  else String c EmptyString.

Definition chars (s : string) : list ascii := list_ascii_of_string s.
Definition str (l : list ascii) : string := string_of_list_ascii l.

Definition toLowerCase (s : string) : string := str (map lowerChar (chars s)).

Definition toUpperCase (s : string) : string :=
  fold_right (fun c acc => String.append (upperChar c) acc) EmptyString (chars s).

Definition isEmptyStr (s : string) : bool :=
  match s with EmptyString => true | _ => false end.

(** Truthiness of a string value: only the empty string is falsy. *)
Definition truthy (s : string) : bool := negb (isEmptyStr s).

(** [value ? ... : ...] on a nullable string. *)
Definition truthyOpt (o : option string) : bool :=
  match o with Some s => truthy s | None => false end.

Fixpoint dropWhile {A} (p : A -> bool) (l : list A) : list A :=
  match l with
  | [] => []
  | x :: l' => if p x then dropWhile p l' else l
  end.

Definition trimStart (s : string) : string := str (dropWhile isSpace (chars s)).
Definition trimEnd (s : string) : string :=
  str (rev (dropWhile isSpace (rev (chars s)))).
Definition trim (s : string) : string := trimStart (trimEnd s).

(** [s.slice(a, b)] for [0 <= a <= b]. *)
Definition slice (s : string) (a b : nat) : string :=
  str (firstn (b - a) (skipn a (chars s))).

Definition sliceFrom (s : string) (a : nat) : string := str (skipn a (chars s)).

Fixpoint isPrefix (p l : list ascii) : bool :=
  match p, l with
  | [], _ => true
  | a :: p', b :: l' => if Ascii.eqb a b then isPrefix p' l' else false
  | _ :: _, [] => false
  end.

(** [s.indexOf(needle)], [None] standing for -1. *)
Fixpoint indexOfFrom (needle l : list ascii) (i : nat) : option nat :=
  if isPrefix needle l then Some i
  else match l with
       | [] => None
       | _ :: l' => indexOfFrom needle l' (S i)
       end.

Definition indexOf (s needle : string) : option nat :=
  indexOfFrom (chars needle) (chars s) 0.

Definition includes (s needle : string) : bool :=
  match indexOf s needle with Some _ => true | None => false end.

(** [String(n)] and [Number.parseInt(digits, 10)] on integers. *)
Definition stringOfZ (z : Z) : string := NilZero.string_of_int (Z.to_int z).

Definition digitVal (c : ascii) : Z := Z.of_N (code c) - 48.

Definition parseIntDigits (s : string) : Z :=
  fold_left (fun acc c => 10 * acc + digitVal c) (chars s) 0.

Definition joinWith (sep : string) (l : list string) : string :=
  match l with
  | [] => EmptyString
  | x :: l' => fold_left (fun acc y => String.append (String.append acc sep) y) l' x
  end.

(** ** Regular expressions

    A backtracking matcher with the priorities of the JavaScript engine:
    the left alternative first, greedy repetition, leftmost start.  The
    position is the pair of the code unit before it ([None] at the start
    of the input) and the input that remains. *)

Inductive regex : Type :=
| Eps : regex
| Cls : (ascii -> bool) -> regex
| Cat : regex -> regex -> regex
| Alt : regex -> regex -> regex
| Star : regex -> regex
| Grp : nat -> regex -> regex
| WordB : regex
| Bol : regex
| Eol : regex
| NotAhead : regex -> regex.

Definition captures : Type := list (nat * string).

Definition wordBefore (prev : option ascii) : bool :=
  match prev with Some c => isWord c | None => false end.

Definition wordAfter (s : list ascii) : bool :=
  match s with c :: _ => isWord c | [] => false end.

Definition orElse {R} (a b : option R) : option R :=
  match a with Some x => Some x | None => b end.

Fixpoint rx {R : Type} (r : regex) (prev : option ascii) (s : list ascii) (cs : captures)
    (k : option ascii -> list ascii -> captures -> option R) {struct r} : option R :=
  match r with
  | Eps => k prev s cs
  | Cls p =>
      match s with
      | c :: s' => if p c then k (Some c) s' cs else None
      | [] => None
      end
  | Cat r1 r2 => rx r1 prev s cs (fun prev' s' cs' => rx r2 prev' s' cs' k)
  | Alt r1 r2 => orElse (rx r1 prev s cs k) (rx r2 prev s cs k)
  | Star r1 =>
      (fix loop (n : nat) (prev : option ascii) (s : list ascii) (cs : captures) : option R :=
         match n with
         | O => k prev s cs
         | S n' =>
             orElse
               (rx r1 prev s cs (fun prev' s' cs' =>
                  if (length s' <? length s)%nat then loop n' prev' s' cs' else None))
               (k prev s cs)
         end) (length s) prev s cs
  | Grp i r1 =>
      rx r1 prev s cs (fun prev' s' cs' =>
        k prev' s' ((i, str (firstn (length s - length s') s)) :: cs'))
  | WordB => if xorb (wordBefore prev) (wordAfter s) then k prev s cs else None
  | Bol => match prev with None => k prev s cs | Some _ => None end
  | Eol => match s with [] => k prev s cs | _ :: _ => None end
  | NotAhead r1 =>
      match rx r1 prev s cs (fun _ _ _ => Some tt) with
      | Some _ => None
      | None => k prev s cs
      end
  end.

(** Derived forms. *)
Definition Plus (r : regex) : regex := Cat r (Star r).
Definition Opt (r : regex) : regex := Alt r Eps.
Definition Chr (c : ascii) : regex := Cls (Ascii.eqb c).
(** A literal letter under the [i] flag. *)
Definition ChrI (c : ascii) : regex := Cls (fun x => Ascii.eqb (lowerChar x) (lowerChar c)).
Definition Lit (s : string) : regex := fold_right (fun c r => Cat (Chr c) r) Eps (chars s).
Definition LitI (s : string) : regex := fold_right (fun c r => Cat (ChrI c) r) Eps (chars s).
Definition AltL (l : list regex) : regex :=
  match l with
  | [] => Eps
  | r :: l' => fold_left Alt l' r
  end.
Definition CatL (l : list regex) : regex := fold_right Cat Eps l.
Definition Space : regex := Cls isSpace.
Definition Digit : regex := Cls isDigit.
Definition oneOf (s : string) (c : ascii) : bool := existsb (Ascii.eqb c) (chars s).

(** One match: where it starts and ends, and the capture groups. *)
Record rmatch : Type := MkMatch {
  m_start : nat;
  m_end : nat;
  m_caps : captures
}.

Definition group (i : nat) (m : rmatch) : option string :=
  match find (fun p => Nat.eqb (fst p) i) (m_caps m) with
  | Some p => Some (snd p)
  | None => None
  end.

(** [exec]: the leftmost match at or after the current position. *)
Fixpoint scan (r : regex) (prev : option ascii) (s : list ascii) (idx : nat) : option rmatch :=
  match rx r prev s [] (fun _ s' cs => Some (MkMatch idx (idx + (length s - length s')) cs)) with
  | Some m => Some m
  | None =>
      match s with
      | [] => None
      | c :: s' => scan r (Some c) s' (S idx)
      end
  end.

Definition exec (r : regex) (s : string) : option rmatch := scan r None (chars s) 0.

Definition test (r : regex) (s : string) : bool :=
  match exec r s with Some _ => true | None => false end.

Definition lastOf (l : list ascii) : option ascii := List.last (map Some l) None.

(** The successive matches of a global ([g]) regular expression: after a
    match the search resumes at its end, one unit further when the match
    was empty. *)
Fixpoint scanAll (fuel : nat) (r : regex) (whole : list ascii) (from : nat) : list rmatch :=
  match fuel with
  | O => []
  | S fuel' =>
      if (length whole <? from)%nat then []
      else
        match scan r (lastOf (firstn from whole)) (skipn from whole) from with
        | None => []
        | Some m =>
            m :: scanAll fuel' r whole
                   (if (m_end m =? m_start m)%nat then S (m_end m) else m_end m)
        end
  end.

Definition matchAll (r : regex) (s : string) : list rmatch :=
  scanAll (S (S (String.length s))) r (chars s) 0.

(** [s.replace(/r/g, f)]. *)
Fixpoint spliceMatches (whole : list ascii) (pos : nat) (f : rmatch -> string) (ms : list rmatch)
    : list ascii :=
  match ms with
  | [] => skipn pos whole
  | m :: ms' =>
      firstn (m_start m - pos) (skipn pos whole) ++ chars (f m)
        ++ spliceMatches whole (m_end m) f ms'
  end.

Definition replaceAll (r : regex) (f : rmatch -> string) (s : string) : string :=
  str (spliceMatches (chars s) 0 f (matchAll r s)).

(** [s.split(/r/)] for a separator without capture groups that never
    matches the empty string. *)
Fixpoint splitMatches (whole : list ascii) (pos : nat) (ms : list rmatch) : list string :=
  match ms with
  | [] => [str (skipn pos whole)]
  | m :: ms' =>
      str (firstn (m_start m - pos) (skipn pos whole)) :: splitMatches whole (m_end m) ms'
  end.

Definition split (r : regex) (s : string) : list string :=
  splitMatches (chars s) 0 (matchAll r s).

(** ** Scorekeeping: text helpers ([src/scorekeeping/baseball.ts]) *)

Local Open Scope string_scope.
Local Open Scope Z_scope.

Definition word (s : string) : regex := CatL [WordB; Lit s; WordB].
Definition wordI (s : string) : regex := CatL [WordB; LitI s; WordB].

(** [/\s+/g] and [/[^\w]+/g]. *)
Definition reSpaces : regex := Plus Space.
Definition reNonWord : regex := Plus (Cls (fun c => negb (isWord c))).

Definition collapseSpaces (s : string) : string := replaceAll reSpaces (fun _ => " ") s.

Definition toStringValue (value : option string) : option string :=
  match value with
  | None => None
  | Some v =>
      let text := trim v in
      if (0 <? String.length text)%nat && negb (String.eqb text "-") then Some text else None
  end.

Definition normalizePlayerDisplayName (value : option string) : option string :=
  match toStringValue value with
  | None => None
  | Some clean =>
      match indexOf clean "," with
      | None => Some (trim (collapseSpaces clean))
      | Some commaIndex =>
          let lastName := trim (slice clean 0 commaIndex) in
          let firstName := trim (sliceFrom clean (commaIndex + 1)) in
          if isEmptyStr firstName || isEmptyStr lastName
          then Some (trim (collapseSpaces clean))
          else Some (trim (collapseSpaces (firstName ++ " " ++ lastName)))
      end
  end.

Definition squash (s : string) : string :=
  trim (collapseSpaces (replaceAll reNonWord (fun _ => " ") (toLowerCase s))).

Definition normalizePlayText (value : option string) : string :=
  squash (match value with Some v => v | None => "" end).

Definition normalizeName (value : option string) : string :=
  let display :=
    match normalizePlayerDisplayName value with
    | Some d => d
    | None => match value with Some v => v | None => "" end
    end in
  squash display.

Definition normalizeTeamToken (value : option string) : string := normalizeName value.

Definition reNonSlug : regex := Plus (Cls (fun c => negb (isLower c || isDigit c))).
Definition reEdgeDashes : regex :=
  Alt (Cat Bol (Plus (Chr "-"))) (Cat (Plus (Chr "-")) Eol).

Definition slugForId (value : string) : string :=
  let slug :=
    replaceAll reEdgeDashes (fun _ => "")
      (replaceAll reNonSlug (fun _ => "-") (toLowerCase value)) in
  if isEmptyStr slug then "unknown" else slug.

Definition countMatches (r : regex) (s : string) : Z := Z.of_nat (length (matchAll r s)).

Definition countRunsScored (text : string) : Z :=
  let normalized := toLowerCase text in
  let runs := 0 + countMatches (word "scored") normalized in
  let runs := runs + countMatches (word "scores") normalized in
  if test (word "homered") normalized || test (word "home run") normalized
  then runs + 1
  else runs.

(** ** Play description parser *)

Inductive BaseballPlayOutcome : Type :=
| single | double | triple | home_run | walk | intentional_walk | hit_by_pitch
| strikeout | ground_out | fly_out | line_out | foul_out | sacrifice
| fielder_choice | reached_on_error | stolen_base | caught_stealing | pickoff
| wild_pitch | passed_ball | balk | other.

(** [Set.prototype.add] on the insertion-ordered tag set. *)
Definition addTag (value : string) (tags : list string) : list string :=
  if existsb (String.eqb value) tags then tags else tags ++ [value].

(** [\bX(?!\s+play)\b] *)
Definition wordNotPlay (s : string) : regex :=
  CatL [WordB; Lit s; NotAhead (Cat (Plus Space) (Lit "play")); WordB].

Definition orderedMatchers : list (BaseballPlayOutcome * regex * string) :=
  [ (home_run, Alt (word "homered") (word "home run"), "home_run");
    (triple, Alt (word "tripled") (wordNotPlay "triple"), "triple");
    (double, Alt (word "doubled") (wordNotPlay "double"), "double");
    (single, Alt (word "singled") (word "single"), "single");
    (intentional_walk, word "intentionally walked", "intentional_walk");
    (walk, Alt (word "walked") (word "walk"), "walk");
    (hit_by_pitch, Alt (word "hit by pitch") (word "hbp"), "hit_by_pitch");
    (caught_stealing, word "caught stealing", "caught_stealing");
    (pickoff, Alt (word "picked off") (word "pickoff"), "pickoff");
    (stolen_base, Alt (word "stole") (word "stolen base"), "stolen_base");
    (strikeout, Alt (word "struck out") (word "strikeout"), "strikeout");
    (ground_out, AltL [word "grounded out"; word "ground out"; word "groundout"], "ground_out");
    (fly_out, AltL [word "flied out"; word "fly out"; word "popped out"], "fly_out");
    (line_out, Alt (word "lined out") (word "line out"), "line_out");
    (foul_out, Alt (word "fouled out") (word "foul out"), "foul_out");
    (sacrifice, AltL [word "sacrifice"; word "sac fly"; word "sac bunt"], "sacrifice");
    (fielder_choice,
       CatL [WordB; Lit "fielder"; Opt (Chr "'"); Lit "s choice"; WordB], "fielder_choice");
    (reached_on_error,
       AltL [word "reached on an error"; word "reached on a throwing error";
             word "reached on error"], "error");
    (wild_pitch, word "wild pitch", "wild_pitch");
    (passed_ball, word "passed ball", "passed_ball");
    (balk, word "balk", "balk") ].

(** The four tag tests that precede the ordered match. *)
Definition detectTags (lower : string) : list string :=
  let tags := [] in
  let tags := if test (word "double play") lower then addTag "double_play" tags else tags in
  let tags := if test (word "triple play") lower then addTag "triple_play" tags else tags in
  let tags :=
    if test (Alt (word "scored") (word "scores")) lower then addTag "run_scored" tags else tags in
  let tags := if test (word "rbi") lower then addTag "rbi" tags else tags in
  tags.

(** The [for ... of orderedMatchers] loop with its early return. *)
Fixpoint firstMatcher (matchers : list (BaseballPlayOutcome * regex * string))
    (lower : string) (tags : list string) : BaseballPlayOutcome * list string :=
  match matchers with
  | [] => (other, tags)
  | (outcome, pattern, tag) :: rest =>
      if test pattern lower then (outcome, addTag tag tags)
      else firstMatcher rest lower tags
  end.

Definition parsePlayDescription (text : string) : BaseballPlayOutcome * list string :=
  let lower := toLowerCase text in
  firstMatcher orderedMatchers lower (detectTags lower).

(** ** Pitch context *)

Inductive BaseballPitchDescription : Type :=
| ball | intentional_ball | pitchout_ball | pitchout_strike | called_strike
| swinging_strike | foul | in_play | pitch_hit_by_pitch | unknown_pitch.

Record BaseballPitch : Type := MkPitch {
  pitchNumber : Z;
  pitchCode : string;
  pitchDescription : BaseballPitchDescription
}.

Record BaseballPitchContext : Type := MkPitchContext {
  finalCount : option (Z * Z);
  rawSequence : option string;
  pitches : list BaseballPitch
}.

Definition mapPitchCode (code : string) : BaseballPitchDescription :=
  let c := toUpperCase code in
  if String.eqb c "B" then ball
  else if String.eqb c "I" then intentional_ball
  else if String.eqb c "P" then pitchout_ball
  else if String.eqb c "Q" then pitchout_strike
  else if String.eqb c "K" || String.eqb c "C" then called_strike
  else if String.eqb c "S" || String.eqb c "M" then swinging_strike
  else if String.eqb c "F" || String.eqb c "L" || String.eqb c "T" then foul
  else if String.eqb c "X" then in_play
  else if String.eqb c "H" then pitch_hit_by_pitch
  else unknown_pitch.

(** [/\((\d)\s*-\s*(\d)(?:\s+([A-Z]+))?\)/g] *)
Definition rePitchCount : regex :=
  CatL [Chr "("; Grp 1 Digit; Star Space; Chr "-"; Star Space; Grp 2 Digit;
        Opt (Cat (Plus Space) (Grp 3 (Plus (Cls isUpper)))); Chr ")"].

(** [s.split("").map((code, index) => ...)] *)
Fixpoint pitchesFrom (index : Z) (codes : list ascii) : list BaseballPitch :=
  match codes with
  | [] => []
  | c :: rest =>
      let code := String c EmptyString in
      MkPitch (index + 1) code (mapPitchCode code) :: pitchesFrom (index + 1) rest
  end.

Definition parsePitchContextFromText (text : string) : option BaseballPitchContext :=
  match List.last (map Some (matchAll rePitchCount text)) None with
  | None => None
  | Some selected =>
      let digits i := match group i selected with Some d => parseIntDigits d | None => 0 end in
      let balls := digits 1%nat in
      let strikes := digits 2%nat in
      let rawSequence :=
        match group 3 selected with
        | Some g => if truthy g then Some (toUpperCase (trim g)) else None
        | None => None
        end in
      Some (MkPitchContext (Some (balls, strikes)) rawSequence
              (match rawSequence with
               | Some raw => pitchesFrom 0 (chars raw)
               | None => []
               end))
  end.

(** ** Scoring-decision context *)

Record BaseballFieldLocation : Type := MkLocation {
  loc_code : Z;
  loc_abbreviation : string;
  loc_name : string
}.

Inductive LocationSource : Type := src_text | src_scorecard | src_none.

Record BaseballScoringDecisionContext : Type := MkContext {
  playCode : option string;
  fielderCodes : list Z;
  fieldLocations : list BaseballFieldLocation;
  rbi : option Z;
  locationSource : LocationSource;
  locationConfidence : Q
}.

Definition mapFielderCodeToLocation (code : Z) : BaseballFieldLocation :=
  match code with
  | 1 => MkLocation code "P" "pitcher"
  | 2 => MkLocation code "C" "catcher"
  | 3 => MkLocation code "1B" "first base"
  | 4 => MkLocation code "2B" "second base"
  | 5 => MkLocation code "3B" "third base"
  | 6 => MkLocation code "SS" "shortstop"
  | 7 => MkLocation code "LF" "left field"
  | 8 => MkLocation code "CF" "center field"
  | 9 => MkLocation code "RF" "right field"
  | _ => MkLocation code "UNK" "unknown"
  end.

Definition whole (r : regex) : regex := CatL [Bol; r; Eol].

Definition rePlayCode : regex := whole (Plus (Cls (fun c => isUpper c || isDigit c))).
Definition reDigitsRbi : regex := whole (Cat (Plus Digit) (Lit "RBI")).
Definition reAllDigits : regex := whole (Plus Digit).
(** [/(\d+)\s*RBI\b/] *)
Definition reRbiCountB : regex := CatL [Grp 1 (Plus Digit); Star Space; Lit "RBI"; WordB].

Definition parseScoringDecisionContext (scoringDecision : option string)
    : option BaseballScoringDecisionContext :=
  match toStringValue scoringDecision with
  | None => None
  | Some clean =>
      let normalized := toUpperCase clean in
      let parts := List.filter (fun part => (0 <? String.length part)%nat) (split reSpaces normalized) in
      match parts with
      | [] => None
      | playCodeCandidate :: _ =>
          let playCode :=
            if test rePlayCode playCodeCandidate && negb (test reDigitsRbi playCodeCandidate)
            then Some playCodeCandidate else None in
          let locationToken := find (test reAllDigits) parts in
          let fielderCodes :=
            match locationToken with
            | Some token => map digitVal (chars token)
            | None => []
            end in
          let validFielderCodes := List.filter (fun code => (1 <=? code)%Z && (code <=? 9)%Z) fielderCodes in
          let fieldLocations := map mapFielderCodeToLocation validFielderCodes in
          let rbi :=
            match exec reRbiCountB normalized with
            | Some rbiMatch =>
                Some (match group 1 rbiMatch with Some d => parseIntDigits d | None => 0 end)
            | None => if test (word "RBI") normalized then Some 1 else None
            end in
          Some (MkContext playCode validFielderCodes fieldLocations rbi
                  (if (0 <? length validFielderCodes)%nat then src_scorecard else src_none)
                  (if (0 <? length validFielderCodes)%nat then 0.9%Q else 0%Q))
      end
  end.

(** [(?:to|into|toward|towards|down)\s+(?:deep\s+)?(?:NAME|ABBR)\b] and its
    infield variant without [into], [down] and [deep]. *)
Definition reOutfield (name abbr : string) : regex :=
  CatL [WordB; AltL [Lit "to"; Lit "into"; Lit "toward"; Lit "towards"; Lit "down"];
        Plus Space; Opt (Cat (Lit "deep") (Plus Space)); Alt (Lit name) (Lit abbr); WordB].

Definition reInfield (name abbr : string) : regex :=
  CatL [WordB; AltL [Lit "to"; Lit "toward"; Lit "towards"];
        Plus Space; Alt (Lit name) (Lit abbr); WordB].

Definition locationPatterns : list (regex * Z) :=
  [ (reOutfield "right field" "rf", 9);
    (reOutfield "center field" "cf", 8);
    (reOutfield "left field" "lf", 7);
    (reInfield "pitcher" "p", 1);
    (reInfield "catcher" "c", 2);
    (reInfield "first base" "1b", 3);
    (reInfield "second base" "2b", 4);
    (reInfield "third base" "3b", 5);
    (reInfield "shortstop" "ss", 6) ].

(** [addMatches]: one entry per pattern that matches, at the index of its
    first match. *)
Definition addMatches (lower : string) (matches : list (Z * nat)) (entry : regex * Z)
    : list (Z * nat) :=
  match exec (fst entry) lower with
  | Some m => matches ++ [(snd entry, m_start m)]
  | None => matches
  end.

(** [matches.sort((a, b) => a.index - b.index)]: a stable sort. *)
Fixpoint insertByIndex (x : Z * nat) (l : list (Z * nat)) : list (Z * nat) :=
  match l with
  | [] => [x]
  | y :: l' => if (snd x <? snd y)%nat then x :: l else y :: insertByIndex x l'
  end.

Definition sortByIndex (l : list (Z * nat)) : list (Z * nat) :=
  fold_left (fun acc x => insertByIndex x acc) l [].

Definition parseFieldLocationsFromText (playText : string) : list BaseballFieldLocation :=
  let lower := toLowerCase playText in
  let matches := fold_left (addMatches lower) locationPatterns [] in
  match sortByIndex matches with
  | [] => []
  | first :: _ => [mapFielderCodeToLocation (fst first)]
  end.

Definition resolveScoringDecisionContext (scoringDecision : option string) (playText : string)
    : option BaseballScoringDecisionContext :=
  let base := parseScoringDecisionContext scoringDecision in
  let textLocations := parseFieldLocationsFromText playText in
  if (0 <? length textLocations)%nat then
    let fielderCodes := map loc_code textLocations in
    match base with
    | Some b =>
        Some (MkContext (playCode b) fielderCodes textLocations (rbi b) src_text 1%Q)
    | None =>
        Some (MkContext None fielderCodes textLocations None src_text 1%Q)
    end
  else base.

(** ** Player registry *)

Inductive TeamSide : Type := away | home.
Inductive Half : Type := top | bottom.

Definition sideName (side : TeamSide) : string :=
  match side with away => "away" | home => "home" end.

Definition halfName (half : Half) : string :=
  match half with top => "top" | bottom => "bottom" end.

Definition sideEqb (a b : TeamSide) : bool :=
  match a, b with away, away | home, home => true | _, _ => false end.

Definition halfEqb (a b : Half) : bool :=
  match a, b with top, top | bottom, bottom => true | _, _ => false end.

Record BaseballPlayer : Type := MkPlayer {
  playerId : string;
  playerName : string;
  normalizedName : string;
  sides : list TeamSide;
  jerseyNumbers : list Z;
  positions : list string
}.

(** The two maps closed over by [createPlayerRegistry]. *)
Record PlayerRegistry : Type := MkRegistry {
  playersById : gmap string BaseballPlayer;
  idBySideAndName : gmap string string
}.

Definition createPlayerRegistry : PlayerRegistry := MkRegistry ∅ ∅.

Definition has {V} (m : gmap string V) (key : string) : bool :=
  match m !! key with Some _ => true | None => false end.

Definition suffixed (baseId : string) (index : Z) : string :=
  baseId ++ ":" ++ stringOfZ index.

(** The [while (map.has(...)) index += 1] loop of [uniqueId]; a map of
    [n] keys cannot hold [n + 1] candidates, which bounds the iterations. *)
Fixpoint uniqueIdLoop {V} (fuel : nat) (baseId : string) (m : gmap string V) (index : Z) : string :=
  match fuel with
  | O => suffixed baseId index
  | S fuel' =>
      if has m (suffixed baseId index)
      then uniqueIdLoop fuel' baseId m (index + 1)
      else suffixed baseId index
  end.

Definition uniqueId {V} (baseId : string) (m : gmap string V) : string :=
  if negb (has m baseId) then baseId
  else uniqueIdLoop (size m) baseId m 2.

(** [array.includes(x) ? nothing : array.push(x)] *)
Definition pushNew {A} (eqb : A -> A -> bool) (x : A) (l : list A) : list A :=
  if existsb (eqb x) l then l else l ++ [x].

Definition mergeInto (existing : BaseballPlayer) (side : TeamSide) (jersey : option Z)
    (position : option string) : BaseballPlayer :=
  let jerseys :=
    match jersey with
    | Some j => pushNew Z.eqb j (jerseyNumbers existing)
    | None => jerseyNumbers existing
    end in
  let poss :=
    match position with
    | Some p => if truthy p then pushNew String.eqb p (positions existing) else positions existing
    | None => positions existing
    end in
  MkPlayer (playerId existing) (playerName existing) (normalizedName existing)
    (pushNew sideEqb side (sides existing)) jerseys poss.

Definition register (side : TeamSide) (name : string) (jersey : option Z)
    (position : option string) (reg : PlayerRegistry) : string * PlayerRegistry :=
  let displayName :=
    match normalizePlayerDisplayName (Some name) with Some d => d | None => name end in
  let normalizedName := normalizeName (Some name) in
  let sideNameKey := sideName side ++ "|" ++ normalizedName in
  let existingByName := idBySideAndName reg !! sideNameKey in
  if truthyOpt existingByName then
    let id := match existingByName with Some id => id | None => "" end in
    match playersById reg !! id with
    | Some existing =>
        (id, MkRegistry (<[id := mergeInto existing side jersey position]> (playersById reg))
               (idBySideAndName reg))
    | None => (id, reg)
    end
  else
    let jerseyPart := match jersey with None => "na" | Some j => stringOfZ j end in
    let baseId := sideName side ++ ":" ++ jerseyPart ++ ":" ++ slugForId displayName in
    let playerId := uniqueId baseId (playersById reg) in
    let player :=
      MkPlayer playerId displayName normalizedName [side]
        (match jersey with None => [] | Some j => [j] end)
        (match position with
         | Some p => if truthy p then [p] else []
         | None => []
         end) in
    (playerId,
     MkRegistry (<[playerId := player]> (playersById reg))
       (<[sideNameKey := playerId]> (idBySideAndName reg))).




(** ** Play unifier *)

Inductive FinalPlayByPlayEventType : Type := ev_half | ev_play | ev_summary | ev_note.

Record FinalPlayByPlayEvent : Type := MkFinalEvent {
  fe_type : FinalPlayByPlayEventType;
  fe_half : option Half;
  fe_text : string;
  fe_action : option string;
  fe_scoringDecision : option string;
  fe_batter : option string;
  fe_pitcher : option string;
  fe_outs : option Z
}.

Record FinalInningPlayByPlay : Type := MkInning {
  fi_inning : Z;
  fi_title : string;
  fi_events : list FinalPlayByPlayEvent
}.

(** The part of [StatBroadcastFinalGame] that [buildUnifiedPlays] reads. *)
Record StatBroadcastFinalGame : Type := MkFinalGame {
  fs_visitorTeam : string;
  fs_homeTeam : string;
  playByPlayByInning : list FinalInningPlayByPlay
}.

Record BaseballScoringEvent : Type := MkScoringEvent {
  se_inningNumber : option Z;
  se_half : option Half;
  se_battingTeam : option string;
  se_batter : option string;
  se_pitcher : option string;
  se_outs : option Z;
  se_text : string;
  se_scoringDecision : option string;
  se_scoringDecisionContext : option BaseballScoringDecisionContext;
  se_outcome : BaseballPlayOutcome;
  se_tags : list string;
  se_pitchContext : option BaseballPitchContext;
  se_runsScoredOnPlay : Z
}.

Inductive PlaySource : Type := play_by_play | scoring_summary.

Record Participants : Type := MkParticipants {
  batterId : option string;
  batterName : option string;
  pitcherId : option string;
  pitcherName : option string
}.

Record PlayResult : Type := MkResult {
  res_outcome : BaseballPlayOutcome;
  res_tags : list string;
  res_runsScored : Z;
  res_isScoringPlay : bool;
  res_outsAfterPlay : option Z
}.

Record PlayScoring : Type := MkScoring {
  decisionRaw : option string;
  decisionContext : option BaseballScoringDecisionContext
}.

Record BattedBall : Type := MkBattedBall {
  bb_fielderCodes : list Z;
  bb_fieldLocations : list BaseballFieldLocation;
  bb_locationSource : LocationSource;
  bb_locationConfidence : Q
}.

Record BaseballUnifiedPlay : Type := MkUnifiedPlay {
  up_playId : string;
  up_source : PlaySource;
  up_inning : option Z;
  up_half : option Half;
  up_order : option Z;
  up_battingSide : option TeamSide;
  up_battingTeam : option string;
  up_text : string;
  up_participants : Participants;
  up_pitchContext : option BaseballPitchContext;
  up_result : PlayResult;
  up_scoring : PlayScoring;
  up_battedBall : BattedBall
}.

(** [context?.fielderCodes ?? []] and the like. *)
Definition battedBallOf (context : option BaseballScoringDecisionContext) : BattedBall :=
  match context with
  | Some c => MkBattedBall (fielderCodes c) (fieldLocations c) (locationSource c) (locationConfidence c)
  | None => MkBattedBall [] [] src_none 0%Q
  end.

Definition optEqb {A} (eqb : A -> A -> bool) (a b : option A) : bool :=
  match a, b with
  | Some x, Some y => eqb x y
  | None, None => true
  | _, _ => false
  end.

(** The guard shared by both loops: the entry is not used yet and lies in
    the inning and half of the event. *)
Definition candidate (usedScoring : gset nat) (inning : Z) (half : option Half)
    (index : nat) (scoring : BaseballScoringEvent) : bool :=
  negb (bool_decide (index ∈ usedScoring))
  && optEqb Z.eqb (se_inningNumber scoring) (Some inning)
  && optEqb halfEqb (se_half scoring) half.

Definition sameText (event : FinalPlayByPlayEvent) (scoring : BaseballScoringEvent) : bool :=
  String.eqb (normalizePlayText (Some (se_text scoring))) (normalizePlayText (Some (fe_text event))).

Definition samePeopleAndRuns (event : FinalPlayByPlayEvent) (scoring : BaseballScoringEvent) : bool :=
  String.eqb (normalizeName (se_batter scoring)) (normalizeName (fe_batter event))
  && String.eqb (normalizeName (se_pitcher scoring)) (normalizeName (fe_pitcher event))
  && Z.eqb (se_runsScoredOnPlay scoring) (countRunsScored (fe_text event)).

(** [for (let index = 0; index < timeline.length; index += 1)] returning
    the first index that passes. *)
Fixpoint firstIndex {A} (p : nat -> A -> bool) (l : list A) (index : nat) : option nat :=
  match l with
  | [] => None
  | x :: l' => if p index x then Some index else firstIndex p l' (S index)
  end.

Definition findMatchingScoringEventIndex (scoringTimeline : list BaseballScoringEvent)
    (usedScoring : gset nat) (inning : Z) (half : option Half) (event : FinalPlayByPlayEvent)
    : option nat :=
  match firstIndex (fun index scoring =>
          candidate usedScoring inning half index scoring && sameText event scoring)
        scoringTimeline 0 with
  | Some index => Some index
  | None =>
      firstIndex (fun index scoring =>
          candidate usedScoring inning half index scoring && samePeopleAndRuns event scoring)
        scoringTimeline 0
  end.

Definition resolveSideFromTeamToken (token : option string) (lookup : gmap string TeamSide)
    : option TeamSide :=
  let normalized := normalizeTeamToken token in
  if isEmptyStr normalized then None else lookup !! normalized.

Definition otherSide (side : option TeamSide) : option TeamSide :=
  match side with
  | Some away => Some home
  | Some home => Some away
  | None => None
  end.

(** [name && side ? registry.register(side, name, null, position) : null] *)
Definition registerIf (name : option string) (side : option TeamSide) (position : option string)
    (reg : PlayerRegistry) : option string * PlayerRegistry :=
  match name, side with
  | Some n, Some s =>
      if truthy n
      then let '(id, reg') := register s n None position reg in (Some id, reg')
      else (None, reg)
  | _, _ => (None, reg)
  end.

(** What the two [forEach] passes of [buildUnifiedPlays] update. *)
Record UnifyState : Type := MkUnify {
  u_plays : list BaseballUnifiedPlay;
  u_usedScoring : gset nat;
  u_registry : PlayerRegistry;
  u_warnings : list string
}.

Record FinalScoringPlay : Type := MkScoringPlay {
  sp_team : option string;
  sp_inning : option string;
  sp_scoringDecision : option string;
  sp_play : string;
  sp_batter : option string;
  sp_pitcher : option string;
  sp_outs : option Z
}.

(** [/\b(top|bot|bottom)\s*(\d+)/i] *)
Definition reHalfInning : regex :=
  CatL [WordB; Grp 1 (AltL [LitI "top"; LitI "bot"; LitI "bottom"]); Star Space;
        Grp 2 (Plus Digit)].

Definition parseHalfInning (value : option string) : option Half * option Z :=
  match value with
  | None => (None, None)
  | Some v =>
      match exec reHalfInning v with
      | None => (None, None)
      | Some m =>
          (Some (if test (Cat Bol (LitI "top")) (match group 1 m with Some g => g | None => "" end)
                 then top else bottom),
           Some (parseIntDigits (match group 2 m with Some g => g | None => "" end)))
      end
  end.

Definition parseScoringEvent (play : FinalScoringPlay) : BaseballScoringEvent :=
  let inning := parseHalfInning (sp_inning play) in
  let parsed := parsePlayDescription (sp_play play) in
  MkScoringEvent (snd inning) (fst inning) (sp_team play)
    (normalizePlayerDisplayName (sp_batter play))
    (normalizePlayerDisplayName (sp_pitcher play))
    (sp_outs play) (sp_play play) (sp_scoringDecision play)
    (resolveScoringDecisionContext (sp_scoringDecision play) (sp_play play))
    (fst parsed) (snd parsed) (parsePitchContextFromText (sp_play play))
    (countRunsScored (sp_play play)).

Definition sideOfHalf (half : option Half) : option TeamSide :=
  match half with
  | Some top => Some away
  | Some bottom => Some home
  | None => None
  end.

(** One iteration of the inner [inningBlock.events.forEach]; [currentHalf]
    and [order] are the two variables local to the inning block. *)
Definition unifyEvent (finalGame : StatBroadcastFinalGame)
    (scoringTimeline : list BaseballScoringEvent) (inning : Z)
    (acc : option Half * Z * UnifyState) (event : FinalPlayByPlayEvent)
    : option Half * Z * UnifyState :=
  let '(currentHalf, order, st) := acc in
  let currentHalf :=
    match fe_type event with ev_half => fe_half event | _ => currentHalf end in
  match fe_type event with
  | ev_play =>
      let order := order + 1 in
      let battingSide := sideOfHalf currentHalf in
      let battingTeam :=
        match battingSide with
        | Some away => Some (fs_visitorTeam finalGame)
        | Some home => Some (fs_homeTeam finalGame)
        | None => None
        end in
      let pitchingSide := otherSide battingSide in
      let '(batterId, reg1) := registerIf (fe_batter event) battingSide None (u_registry st) in
      let '(pitcherId, reg2) := registerIf (fe_pitcher event) pitchingSide (Some "p") reg1 in
      let batterName := normalizePlayerDisplayName (fe_batter event) in
      let pitcherName := normalizePlayerDisplayName (fe_pitcher event) in
      let parsed := parsePlayDescription (fe_text event) in
      let runsScored := countRunsScored (fe_text event) in
      let scoringMatchIndex :=
        findMatchingScoringEventIndex scoringTimeline (u_usedScoring st) inning currentHalf event in
      let scoringMatch :=
        match scoringMatchIndex with
        | Some index => nth_error scoringTimeline index
        | None => None
        end in
      let usedScoring :=
        match scoringMatchIndex with
        | Some index => {[index]} ∪ u_usedScoring st
        | None => u_usedScoring st
        end in
      let scoringDecisionRaw :=
        match scoringMatch with Some m => se_scoringDecision m | None => None end in
      let scoringDecisionContext :=
        match (match scoringMatch with Some m => se_scoringDecisionContext m | None => None end) with
        | Some c => Some c
        | None => resolveScoringDecisionContext None (fe_text event)
        end in
      let isScoringPlay :=
        (match scoringMatch with Some _ => true | None => false end) || (0 <? runsScored)%Z in
      let play :=
        MkUnifiedPlay
          ("P-" ++ stringOfZ inning ++ "-"
             ++ (match currentHalf with Some h => halfName h | None => "u" end)
             ++ "-" ++ stringOfZ order)
          play_by_play (Some inning) currentHalf (Some order) battingSide battingTeam
          (fe_text event)
          (MkParticipants batterId batterName pitcherId pitcherName)
          (parsePitchContextFromText (fe_text event))
          (MkResult (fst parsed) (snd parsed) runsScored isScoringPlay (fe_outs event))
          (MkScoring scoringDecisionRaw scoringDecisionContext)
          (battedBallOf scoringDecisionContext) in
      (currentHalf, order, MkUnify (u_plays st ++ [play]) usedScoring reg2 (u_warnings st))
  | _ => (currentHalf, order, st)
  end.

(** One iteration of the outer [playByPlayByInning.forEach]. *)
Definition unifyInning (finalGame : StatBroadcastFinalGame)
    (scoringTimeline : list BaseballScoringEvent) (st : UnifyState)
    (inningBlock : FinalInningPlayByPlay) : UnifyState :=
  snd (fold_left (unifyEvent finalGame scoringTimeline (fi_inning inningBlock))
         (fi_events inningBlock) (None, 0%Z, st)).

Definition dquote : string := String (ascii_of_nat 34) EmptyString.

(** [/(?:to|into|toward)\s+[a-z0-9]+/i] *)
Definition reTextualLocation : regex :=
  CatL [AltL [LitI "to"; LitI "into"; LitI "toward"]; Plus Space;
        Plus (Cls (fun c => isAlpha c || isDigit c))].

(** One iteration of [scoringTimeline.forEach((scoringPlay, index) => ...)]. *)
Definition emitUnmatched (teamTokenLookup : gmap string TeamSide)
    (st : UnifyState) (indexed : nat * BaseballScoringEvent) : UnifyState :=
  let '(index, scoringPlay) := indexed in
  if bool_decide (index ∈ u_usedScoring st) then st
  else
    let battingSide := resolveSideFromTeamToken (se_battingTeam scoringPlay) teamTokenLookup in
    let pitchingSide := otherSide battingSide in
    let '(batterId, reg1) := registerIf (se_batter scoringPlay) battingSide None (u_registry st) in
    let '(pitcherId, reg2) := registerIf (se_pitcher scoringPlay) pitchingSide (Some "p") reg1 in
    let batterName := normalizePlayerDisplayName (se_batter scoringPlay) in
    let pitcherName := normalizePlayerDisplayName (se_pitcher scoringPlay) in
    let noLocation :=
      match se_scoringDecisionContext scoringPlay with
      | Some c => (length (fieldLocations c) =? 0)%nat
      | None => true
      end in
    let warnings :=
      if noLocation && test reTextualLocation (se_text scoringPlay)
      then app (u_warnings st)
           ["Scoring summary play " ++ stringOfZ (Z.of_nat index + 1)
              ++ " had textual location but no parsed location: "
              ++ dquote ++ se_text scoringPlay ++ dquote]
      else u_warnings st in
    let play :=
      MkUnifiedPlay
        ("S-" ++ stringOfZ (Z.of_nat index + 1))
        scoring_summary (se_inningNumber scoringPlay) (se_half scoringPlay) None
        battingSide (se_battingTeam scoringPlay) (se_text scoringPlay)
        (MkParticipants batterId batterName pitcherId pitcherName)
        (se_pitchContext scoringPlay)
        (MkResult (se_outcome scoringPlay) (se_tags scoringPlay)
           (se_runsScoredOnPlay scoringPlay) true (se_outs scoringPlay))
        (MkScoring (se_scoringDecision scoringPlay) (se_scoringDecisionContext scoringPlay))
        (battedBallOf (se_scoringDecisionContext scoringPlay)) in
    MkUnify (u_plays st ++ [play]) (u_usedScoring st) reg2 warnings.

Definition indexed {A} (l : list A) : list (nat * A) := combine (seq 0 (length l)) l.

Definition unifyAll (finalGame : StatBroadcastFinalGame)
    (scoringTimeline : list BaseballScoringEvent) (playerRegistry : PlayerRegistry)
    (teamTokenLookup : gmap string TeamSide) (warnings : list string) : UnifyState :=
  let afterPlayByPlay :=
    fold_left (unifyInning finalGame scoringTimeline) (playByPlayByInning finalGame)
      (MkUnify [] ∅ playerRegistry warnings) in
  fold_left (emitUnmatched teamTokenLookup) (indexed scoringTimeline) afterPlayByPlay.

Definition buildUnifiedPlays (finalGame : StatBroadcastFinalGame)
    (scoringTimeline : list BaseballScoringEvent) (playerRegistry : PlayerRegistry)
    (teamTokenLookup : gmap string TeamSide) (warnings : list string)
    : list BaseballUnifiedPlay :=
  u_plays (unifyAll finalGame scoringTimeline playerRegistry teamTokenLookup warnings).

(** The scoring-timeline index each play-by-play play was matched with
    ([scoringMatchIndex]), in the order the plays are pushed.  It depends
    on the used set only. *)
Definition traceEvent (scoringTimeline : list BaseballScoringEvent) (inning : Z)
    (acc : option Half * gset nat * list (option nat)) (event : FinalPlayByPlayEvent)
    : option Half * gset nat * list (option nat) :=
  let '(currentHalf, used, trace) := acc in
  let currentHalf :=
    match fe_type event with ev_half => fe_half event | _ => currentHalf end in
  match fe_type event with
  | ev_play =>
      let found := findMatchingScoringEventIndex scoringTimeline used inning currentHalf event in
      (currentHalf,
       match found with Some index => {[index]} ∪ used | None => used end,
       app trace [found])
  | _ => (currentHalf, used, trace)
  end.

Definition traceInning (scoringTimeline : list BaseballScoringEvent)
    (acc : gset nat * list (option nat)) (inningBlock : FinalInningPlayByPlay)
    : gset nat * list (option nat) :=
  let '(_, used, trace) :=
    fold_left (traceEvent scoringTimeline (fi_inning inningBlock)) (fi_events inningBlock)
      (None, fst acc, snd acc) in
  (used, trace).

Definition scoringMatchTrace (finalGame : StatBroadcastFinalGame)
    (scoringTimeline : list BaseballScoringEvent) : list (option nat) :=
  snd (fold_left (traceInning scoringTimeline) (playByPlayByInning finalGame) (∅, [])).

(** ** Live play feed ([src/pipelines/live-play-feed.ts]) *)

(** [he.decode], the HTML-entity decoder of the [he] package. *)
Class HtmlEntities : Type := he_decode : string -> string.

(** [crypto.createHash("sha1").update(input).digest("hex")]. *)
Class Sha1 : Type := sha1_hex : string -> string.

Definition replaceNbsp (s : string) : string :=
  str (map (fun c => if (code c =? 160)%N then " "%char else c) (chars s)).

Definition cleanText `{HtmlEntities} (value : option string) : string :=
  match value with
  | None => ""
  | Some v =>
      if isEmptyStr v then ""
      else trim (collapseSpaces (replaceNbsp (he_decode v)))
  end.

Record LivePlayEvent : Type := MkLivePlay {
  key : string;
  order : Z;
  inning : option Z;
  half : option Half;
  isSubstitution : bool;
  text : string;
  scoringDecision : option string;
  batter : option string;
  pitcher : option string;
  outs : option Z;
  sectionTitle : string
}.

Record DerivedPlayState : Type := MkState {
  awayScore : option Z;
  homeScore : option Z;
  outsAfterPlay : option Z
}.

Record Pitcher : Type := MkPitcher {
  pitcher_name : option string;
  pitchCount : option Z
}.

Record LiveSituation : Type := MkSituation {
  sit_outs : option Z;
  sit_pitcher : Pitcher
}.

(** The part of [StatBroadcastLiveSummary] the pipeline reads. *)
Record StatBroadcastLiveSummary : Type := MkSummary {
  statusText : option string;
  visitorTeam : string;
  homeTeam : string;
  visitorScore : option Z;
  homeScore_ : option Z;
  situation : option LiveSituation;
  completed : bool
}.

Definition inferBattingSide (play : LivePlayEvent) : option TeamSide :=
  match half play with
  | Some top => Some away
  | Some bottom => Some home
  | None => None
  end.

Definition isSameHalfInning (a b : LivePlayEvent) : bool :=
  match inning a, inning b, half a with
  | Some ia, Some ib, Some ha => Z.eqb ia ib && optEqb halfEqb (Some ha) (half b)
  | _, _, _ => false
  end.

(** [/(\d+)\s*RBI/i] *)
Definition reRbiCount : regex := CatL [Grp 1 (Plus Digit); Star Space; LitI "RBI"].

Definition parseRbiCount `{HtmlEntities} (value : option string) : option Z :=
  if negb (truthyOpt value) then None
  else
    let text := cleanText value in
    match exec reRbiCount text with
    | Some explicit =>
        Some (match group 1 explicit with Some d => parseIntDigits d | None => 0 end)
    | None => if test (wordI "RBI") text then Some 1 else None
    end.

Definition orZero (o : option Z) : Z := match o with Some z => z | None => 0 end.

Definition estimateRunsScoredOnPlay `{HtmlEntities} (play : LivePlayEvent) : Z :=
  if isSubstitution play then 0
  else
    let text := cleanText (Some (text play)) in
    let scoredMentions := countMatches (wordI "scored") text in
    let rbiFromDecision := parseRbiCount (scoringDecision play) in
    let rbiFromText := parseRbiCount (Some text) in
    let runs := Z.max (Z.max scoredMentions (orZero rbiFromDecision)) (orZero rbiFromText) in
    if (runs =? 0) && test (Alt (wordI "homered") (wordI "home run")) text then 1 else runs.

Definition reOutKeyword : regex :=
  AltL [wordI "struck out"; wordI "lined out"; wordI "grounded out"; wordI "flied out";
        wordI "fouled out"; wordI "popped out"; wordI "out"].

Definition estimateOutsRecordedOnPlay `{HtmlEntities} (text : string) : Z :=
  let normalized := cleanText (Some text) in
  if isEmptyStr normalized then 0
  else if test (wordI "triple play") normalized then 3
  else if test (wordI "double play") normalized then 2
  else
    let outAtMentions :=
      countMatches (wordI "out at") normalized + countMatches (wordI "out on the play") normalized in
    if (0 <? outAtMentions) then outAtMentions
    else if test reOutKeyword normalized then 1
    else 0.

Definition clampOuts (value : Z) : Z := Z.max 0 (Z.min 3 value).

(** The first [plays.forEach]: one fresh state object per key. *)
Definition initialStates (plays : list LivePlayEvent) (summary : StatBroadcastLiveSummary)
    : gmap string DerivedPlayState :=
  fold_left (fun states play =>
               <[key play := MkState (visitorScore summary) (homeScore_ summary) (outs play)]> states)
    plays ∅.

(** One iteration of the backward loop; the accumulator holds the map
    and the two running totals. *)
Definition scoreStep `{HtmlEntities}
    (acc : gmap string DerivedPlayState * option Z * option Z) (play : LivePlayEvent)
    : gmap string DerivedPlayState * option Z * option Z :=
  let '(states, away_, home_) := acc in
  match states !! key play with
  | None => acc
  | Some state =>
      let states := <[key play := MkState away_ home_ (outsAfterPlay state)]> states in
      let runsScored := estimateRunsScoredOnPlay play in
      let battingSide := inferBattingSide play in
      match (if (0 <? runsScored) && optEqb sideEqb battingSide (Some away)
             then away_ else None) with
      | Some a => (states, Some (Z.max 0 (a - runsScored)), home_)
      | None =>
          match (if (0 <? runsScored) && optEqb sideEqb battingSide (Some home)
                 then home_ else None) with
          | Some h => (states, away_, Some (Z.max 0 (h - runsScored)))
          | None => (states, away_, home_)
          end
      end
  end.

Definition scorePass `{HtmlEntities} (plays : list LivePlayEvent)
    (summary : StatBroadcastLiveSummary) (states : gmap string DerivedPlayState)
    : gmap string DerivedPlayState :=
  fst (fst (fold_left scoreStep (rev plays) (states, visitorScore summary, homeScore_ summary))).

(** The value the forward loop stores for [play], given [plays[index + 1]]. *)
Definition outsAfter `{HtmlEntities} (play : LivePlayEvent) (nextPlay : option LivePlayEvent)
    : option Z :=
  match (match nextPlay with
         | Some next => if isSameHalfInning play next then outs next else None
         | None => None
         end) with
  | Some nextOuts => Some (clampOuts nextOuts)
  | None =>
      if (match nextPlay with
          | Some next => negb (isSameHalfInning play next)
          | None => false
          end)
      then Some 3
      else
        match outs play with
        | Some o => Some (clampOuts (o + estimateOutsRecordedOnPlay (text play)))
        | None => None
        end
  end.

Fixpoint outsPass `{HtmlEntities} (plays : list LivePlayEvent)
    (states : gmap string DerivedPlayState) : gmap string DerivedPlayState :=
  match plays with
  | [] => states
  | play :: rest =>
      match states !! key play with
      | None => outsPass rest states
      | Some state =>
          outsPass rest
            (<[key play := MkState (awayScore state) (homeScore state)
                             (outsAfter play (hd_error rest))]> states)
      end
  end.

Definition deriveLivePlayStates `{HtmlEntities} (plays : list LivePlayEvent)
    (summary : StatBroadcastLiveSummary) : gmap string DerivedPlayState :=
  outsPass plays (scorePass plays summary (initialStates plays summary)).

(** ** Tweet text *)

Definition nl : string := String (ascii_of_nat 10) EmptyString.

(** A [number] argument that need not be an integer. *)
Inductive JsNumber : Type :=
| Finite : Q -> JsNumber
| NotFinite : JsNumber.


Definition trimToTweetLength (text : string) (maxLength : Z) : string :=
  if (Z.of_nat (String.length text) <=? maxLength) then text
  else
    let truncated := trimEnd (slice text 0 (Z.to_nat (Z.max 0 (maxLength - 3)))) in
    truncated ++ "...".

Definition capitalize (value : string) : string :=
  match value with
  | EmptyString => value
  | String c rest => upperChar c ++ toLowerCase rest
  end.

Definition ordinal (value : Z) : string :=
  let mod10 := Z.rem value 10 in
  let mod100 := Z.rem value 100 in
  if (mod10 =? 1) && negb (mod100 =? 11) then stringOfZ value ++ "st"
  else if (mod10 =? 2) && negb (mod100 =? 12) then stringOfZ value ++ "nd"
  else if (mod10 =? 3) && negb (mod100 =? 13) then stringOfZ value ++ "rd"
  else stringOfZ value ++ "th".

Definition formatScore (value : option Z) : string :=
  match value with None => "?" | Some v => stringOfZ v end.

Definition formatOutsLabel (value : option Z) : string :=
  match value with
  | None => "Outs ?"
  | Some v => stringOfZ v ++ " " ++ (if v =? 1 then "Out" else "Outs")
  end.

Definition buildInningLabel `{HtmlEntities} (play : LivePlayEvent) (outsAfterPlay : option Z)
    (summary : StatBroadcastLiveSummary) : string :=
  match inning play, half play with
  | Some i, Some h =>
      if optEqb Z.eqb outsAfterPlay (Some 3) && negb (isSubstitution play)
      then (if halfEqb h top then "Mid" else "End") ++ " " ++ ordinal i
      else capitalize (halfName h) ++ " " ++ ordinal i
  | Some i, None => "Inning " ++ ordinal i
  | None, _ =>
      let status := cleanText (Some (match statusText summary with Some t => t | None => "" end)) in
      if truthy status then status else "Live"
  end.

(** [/^(Mid|End)\b/] *)
Definition reMidEnd : regex := CatL [Bol; Alt (Lit "Mid") (Lit "End"); WordB].

Definition formatHeaderLine (inningLabel : string) (outs : option Z) : string :=
  if test reMidEnd inningLabel then inningLabel
  else inningLabel ++ " | " ++ formatOutsLabel outs.

(** [s.split(/([-'`])/)]: the pieces with the captured separators between
    them. *)
Fixpoint splitKeeping (whole : list ascii) (pos : nat) (ms : list rmatch) : list string :=
  match ms with
  | [] => [str (skipn pos whole)]
  | m :: ms' =>
      str (firstn (m_start m - pos) (skipn pos whole))
        :: match group 1 m with Some g => g | None => "" end
        :: splitKeeping whole (m_end m) ms'
  end.

Definition isNameSeparator (c : ascii) : bool := oneOf "-'`" c.

Definition formatNameSegment (segment : string) : string :=
  if isEmptyStr segment || test (whole (Cls isNameSeparator)) segment then segment
  else
    let lower := toLowerCase segment in
    if isPrefix (chars "mc") (chars lower) && (2 <? String.length lower)%nat
    then "Mc" ++ capitalize (sliceFrom lower 2)
    else capitalize lower.

Definition formatNameToken (token : string) : string :=
  if test (whole (Cat (Cls isAlpha) (Chr "."))) token then toUpperCase token
  else if test (whole (AltL [LitI "jr"; LitI "sr"; LitI "ii"; LitI "iii"; LitI "iv"; LitI "v"])) token
  then toUpperCase token
  else
    let segments :=
      splitKeeping (chars token) 0 (matchAll (Grp 1 (Cls isNameSeparator)) token) in
    joinWith "" (map formatNameSegment segments).

Definition toTitleCasePersonName `{HtmlEntities} (value : string) : string :=
  trim (joinWith " " (map formatNameToken (split reSpaces (cleanText (Some value))))).

(** [[A-Za-z][A-Za-z'.-]+] *)
Definition reNamePart : regex := Cat (Cls isAlpha) (Plus (Cls (fun c => isAlpha c || oneOf "'.-" c))).

(** [/^([A-Za-z][A-Za-z'.-]+),\s*([A-Za-z][A-Za-z'.-]+)$/] *)
Definition reLastFirst : regex :=
  CatL [Bol; Grp 1 reNamePart; Chr ","; Star Space; Grp 2 reNamePart; Eol].

Definition normalizeDisplayName `{HtmlEntities} (value : string) : string :=
  let text := cleanText (Some value) in
  match exec reLastFirst text with
  | None => toTitleCasePersonName text
  | Some m =>
      let g i := match group i m with Some s => s | None => "" end in
      toTitleCasePersonName (g 2%nat) ++ " " ++ toTitleCasePersonName (g 1%nat)
  end.

(** [normalizeNamesInText]: rewrites the player names inside the play
    text.  It yields one block of the tweet and nothing below depends on
    which text it returns. *)
Class NameRewriter : Type := normalizeNamesInText : string -> list (option string) -> string.

Record BuildPlayTweetTextInput : Type := MkPlayTweetInput {
  pt_play : LivePlayEvent;
  pt_summary : StatBroadcastLiveSummary;
  pt_stateAfterPlay : option DerivedPlayState;
  pt_maxLength : option JsNumber;
  pt_appendTag : option string
}.

Definition orElseOpt {A} (a b : option A) : option A :=
  match a with Some x => Some x | None => b end.

Definition orDefault {A} (a : option A) (d : A) : A :=
  match a with Some x => x | None => d end.

(** The [outs] constant of [buildPlayTweetText]. *)
Definition tweetOuts (input : BuildPlayTweetTextInput) : option Z :=
  orElseOpt (match pt_stateAfterPlay input with Some st => outsAfterPlay st | None => None end)
    (orElseOpt (outs (pt_play input))
       (match situation (pt_summary input) with Some sit => sit_outs sit | None => None end)).

Definition composePlayBlocks `{HtmlEntities} `{NameRewriter} (input : BuildPlayTweetTextInput)
    : list string :=
  let play := pt_play input in
  let summary := pt_summary input in
  let outs := tweetOuts input in
  let inningLabel := buildInningLabel play outs summary in
  let pitcherName :=
    normalizeDisplayName
      (cleanText (Some (orDefault
         (orElseOpt (pitcher play)
            (match situation summary with
             | Some sit => pitcher_name (sit_pitcher sit)
             | None => None
             end)) ""))) in
  let pitchCount :=
    match situation summary with Some sit => pitchCount (sit_pitcher sit) | None => None end in
  let awayScore :=
    orElseOpt (match pt_stateAfterPlay input with Some st => awayScore st | None => None end)
      (visitorScore summary) in
  let homeScore :=
    orElseOpt (match pt_stateAfterPlay input with Some st => homeScore st | None => None end)
      (homeScore_ summary) in
  let blocks :=
    [ formatHeaderLine inningLabel outs;
      cleanText (Some (visitorTeam summary)) ++ " - " ++ formatScore awayScore ++ nl
        ++ cleanText (Some (homeTeam summary)) ++ " - " ++ formatScore homeScore;
      normalizeNamesInText (cleanText (Some (text play))) [batter play; pitcher play] ] in
  let blocks :=
    match pitchCount with
    | Some count =>
        if truthy pitcherName
        then app blocks ["Pitching | " ++ pitcherName ++ " - P " ++ stringOfZ count]
        else blocks
    | None => blocks
    end in
  if truthyOpt (pt_appendTag input)
  then app blocks [trim (orDefault (pt_appendTag input) "")]
  else blocks.







(** ** Play rows *)

Inductive Cell : Type :=
| CStr : string -> Cell
| CNum : Z -> Cell
| CNull : Cell.

Record StatsTableRow : Type := MkRow { cells : list Cell }.

Record StatsTable : Type := MkTable {
  headers : list string;
  rows : list StatsTableRow
}.

Record StatsSection : Type := MkSection {
  title : string;
  tables : list StatsTable
}.

Record StatBroadcastLiveStats : Type := MkLiveStats { sections : list StatsSection }.

(** [String(value)] for a non-null cell; a missing cell and a [null] cell
    are both [None]. *)
Definition cellString (cell : option Cell) : option string :=
  match cell with
  | Some (CStr s) => Some s
  | Some (CNum n) => Some (stringOfZ n)
  | Some CNull | None => None
  end.

(** [a ?? b] on cells read by index. *)
Definition cellOr (a b : option Cell) : option Cell :=
  match a with
  | Some CNull | None => b
  | Some c => Some c
  end.

Definition toOptionalString `{HtmlEntities} (value : option Cell) : option string :=
  match cellString value with
  | None => None
  | Some s =>
      let text := cleanText (Some s) in
      if (0 <? String.length text)%nat then Some text else None
  end.

(** [/^-?\d+$/] *)
Definition reInteger : regex := whole (Cat (Opt (Chr "-")) (Plus Digit)).

Definition parseSignedInt (s : string) : Z :=
  match s with
  | String "-" rest => - parseIntDigits rest
  | _ => parseIntDigits s
  end.

Definition parseInteger `{HtmlEntities} (value : option string) : option Z :=
  if negb (truthyOpt value) then None
  else
    let clean := replaceAll (Chr ",") (fun _ => "") (cleanText value) in
    if negb (test reInteger clean) then None else Some (parseSignedInt clean).

Definition toOptionalNumber `{HtmlEntities} (value : option Cell) : option Z :=
  match value with
  | Some (CNum n) => Some n
  | Some CNull | None => None
  | Some (CStr s) => parseInteger (Some s)
  end.

Definition alignCellsToHeaders `{HtmlEntities} (headers : list string) (cells : list Cell)
    : list Cell :=
  if (length headers =? length cells)%nat then cells
  else if (length headers =? length cells + 1)%nat
          && isEmptyStr (cleanText (nth_error headers 0))
  then CNull :: cells
  else if (length headers =? length cells + 1)%nat
          && isEmptyStr (cleanText (nth_error headers (length headers - 1)))
  then app cells [CNull]
  else cells.

Definition readTableCellByHeader `{HtmlEntities} (table : StatsTable) (row : StatsTableRow)
    (headerPattern : regex) : option Cell :=
  match firstIndex (fun _ header => test headerPattern (cleanText (Some header)))
          (headers table) 0 with
  | None => None
  | Some index => nth_error (alignCellsToHeaders (headers table) (cells row)) index
  end.

Definition rePlayHeader : regex := whole (LitI "play").
Definition reScoringHeader : regex := whole (Cat (LitI "scoring dec") (Opt (Chr "."))).
Definition reBatterHeader : regex := whole (LitI "batter").
Definition rePitcherHeader : regex := whole (LitI "pitcher").
Definition reOutsHeader : regex := whole (LitI "outs").

Definition strEq (a : option string) (b : string) : bool := optEqb String.eqb a (Some b).

Definition isHeaderPlaceholderRow `{HtmlEntities} (table : StatsTable) (row : StatsTableRow) : bool :=
  let read pattern := toOptionalString (readTableCellByHeader table row pattern) in
  strEq (read rePlayHeader) "Play" && strEq (read reScoringHeader) "Scoring Dec."
  && strEq (read reBatterHeader) "Batter" && strEq (read rePitcherHeader) "Pitcher"
  && strEq (read reOutsHeader) "Outs".

(** [/^[A-Z0-9]{1,4}$/u] *)
Definition reActionCode : regex :=
  let c := Cls (fun c => isUpper c || isDigit c) in
  whole (CatL [c; Opt (Cat c (Opt (Cat c (Opt c))))]).

Definition isLikelyActionCode `{HtmlEntities} (value : string) : bool :=
  let text := cleanText (Some value) in
  if isEmptyStr text then false
  else if includes text " " then false
  else test reActionCode text.

Definition isLikelyPlayText `{HtmlEntities} (value : string) : bool :=
  let text := cleanText (Some value) in
  if isEmptyStr text then false
  else if isLikelyActionCode text then false
  else test Space text || test (Cls (oneOf ".();")) text.

Definition isLikelyPlayerName `{HtmlEntities} (value : string) : bool :=
  let text := cleanText (Some value) in
  if isEmptyStr text then false
  else if test reAllDigits text then false
  else if isLikelyActionCode text then false
  else test (whole (Cat (Cls isAlpha) (Star (Cls (fun c => isAlpha c || oneOf "'. -" c))))) text.

Definition isSubstitutionText `{HtmlEntities} (value : string) : bool :=
  let text := cleanText (Some value) in
  if isEmptyStr text then false
  else
    test (CatL [WordB; LitI "pinch"; Plus Space; AltL [LitI "ran"; LitI "runner"; LitI "hit"];
                Plus Space; LitI "for"; WordB]) text
    || test (CatL [WordB; LitI "to"; Plus Space;
                   AltL [LitI "p"; LitI "c"; LitI "1b"; LitI "2b"; LitI "3b"; LitI "ss";
                         LitI "lf"; LitI "cf"; LitI "rf"; LitI "dh"; LitI "ph"; LitI "pr"];
                   Plus Space; LitI "for"; WordB]) text
    || test (CatL [WordB; LitI "sub"; Opt (LitI "stitution"); WordB]) text.

(** [/(top|bottom|bot)\s+of\s+the\s+(\d+)/i] *)
Definition reHalfAndInning : regex :=
  CatL [Grp 1 (AltL [LitI "top"; LitI "bottom"; LitI "bot"]); Plus Space; LitI "of";
        Plus Space; LitI "the"; Plus Space; Grp 2 (Plus Digit)].

Definition groupOr (i : nat) (m : rmatch) : string := orDefault (group i m) "".

Definition parseHalfAndInning `{HtmlEntities} (value : string) : option (option Half * option Z) :=
  match exec reHalfAndInning (cleanText (Some value)) with
  | None => None
  | Some m =>
      Some (Some (if test (Cat Bol (LitI "top")) (groupOr 1 m) then top else bottom),
            Some (parseIntDigits (groupOr 2 m)))
  end.

(** [/(\d+)(?:st|nd|rd|th)?\s+inning/i] *)
Definition reInningTitle : regex :=
  CatL [Grp 1 (Plus Digit); Opt (AltL [LitI "st"; LitI "nd"; LitI "rd"; LitI "th"]);
        Plus Space; LitI "inning"].

Definition parseInningFromTitle `{HtmlEntities} (title : string) : option Z :=
  match exec reInningTitle (cleanText (Some title)) with
  | None => None
  | Some m => Some (parseIntDigits (groupOr 1 m))
  end.

Record FallbackPlayFields : Type := MkFallback {
  fb_play : option string;
  fb_scoringDecision : option string;
  fb_batter : option string;
  fb_pitcher : option string;
  fb_outs : option Z
}.

Definition lastStr (l : list string) : option string := List.last (map Some l) None.

Definition inferPlayRowFields `{HtmlEntities} (cells : list Cell) : FallbackPlayFields :=
  let values := omap (fun cell => toOptionalString (Some cell)) cells in
  match lastStr values with
  | None => MkFallback None None None None None
  | Some last =>
      let parsedOuts := parseIntDigits last in
      let isOuts := test (whole Digit) last && (0 <=? parsedOuts) && (parsedOuts <=? 3) in
      let outs := if isOuts then Some parsedOuts else None in
      let values := if isOuts then removelast values else values in
      match values with
      | [] => MkFallback None None None None outs
      | _ :: _ =>
          let values :=
            match values with
            | v0 :: v1 :: _ =>
                if isLikelyActionCode v0 && isLikelyPlayText v1 then List.tl values else values
            | _ => values
            end in
          let play := hd_error values in
          let remainder := List.tl values in
          let maybePitcher := lastStr remainder in
          let maybeBatter := lastStr (removelast remainder) in
          let named :=
            (2 <=? length remainder)%nat
            && match maybePitcher with Some p => isLikelyPlayerName p | None => false end
            && match maybeBatter with Some b => isLikelyPlayerName b | None => false end in
          let pitcher := if named then maybePitcher else None in
          let batter := if named then maybeBatter else None in
          let scoringParts :=
            List.filter (fun entry => negb (isLikelyActionCode entry))
              (removelast (removelast remainder)) in
          let scoringDecision :=
            if named && (0 <? length scoringParts)%nat
            then Some (joinWith " " scoringParts) else None in
          let scoringDecision :=
            match scoringDecision, remainder with
            | None, candidate :: _ =>
                if negb (isLikelyPlayerName candidate) then Some candidate else None
            | _, _ => scoringDecision
            end in
          MkFallback play scoringDecision batter pitcher outs
      end
  end.

Definition isInvalidParsedPlay `{HtmlEntities} (play firstCell batter pitcher : option string)
    (outs : option Z) : bool :=
  match play with
  | None => true
  | Some p =>
      if isEmptyStr p || test reAllDigits p then true
      else if match batter with Some b => truthy b && test reAllDigits b | None => false end
      then true
      else
        match firstCell with
        | Some f =>
            if truthy f && optEqb String.eqb play batter
               && (String.length p + 6 <? String.length f)%nat
            then true
            else if truthy f && negb (String.eqb p f) && isLikelyPlayText f
                    && negb (isLikelyPlayText p)
            then true
            else
              negb (includes p " ") && negb (truthyOpt pitcher)
              && match outs with None => true | Some _ => false end
              && truthy f && isLikelyPlayText f
        | None => false
        end
  end.

Inductive ParsedRow : Type :=
| ParsedHalfRow : Half -> ParsedRow
| ParsedPlayRow :
    option Z -> option Half -> string -> bool -> option string -> option string ->
    option string -> option Z -> ParsedRow.

Definition parsePlayRow `{HtmlEntities} (table : StatsTable) (row : StatsTableRow)
    : option ParsedRow :=
  if isHeaderPlaceholderRow table row then None
  else
    let aligned := alignCellsToHeaders (headers table) (cells row) in
    let firstCell := toOptionalString (cellOr (nth_error aligned 0) (nth_error (cells row) 0)) in
    let fallback := inferPlayRowFields (cells row) in
    let play := toOptionalString (readTableCellByHeader table row rePlayHeader) in
    let scoringDecision := toOptionalString (readTableCellByHeader table row reScoringHeader) in
    let batter := toOptionalString (readTableCellByHeader table row reBatterHeader) in
    let pitcher := toOptionalString (readTableCellByHeader table row rePitcherHeader) in
    let outs := toOptionalNumber (readTableCellByHeader table row reOutsHeader) in
    let invalid := isInvalidParsedPlay play firstCell batter pitcher outs in
    let play := if invalid then orElseOpt (fb_play fallback) play else play in
    let scoringDecision :=
      if invalid then orElseOpt (fb_scoringDecision fallback) scoringDecision
      else scoringDecision in
    let batter := if invalid then orElseOpt (fb_batter fallback) batter else batter in
    let pitcher := if invalid then orElseOpt (fb_pitcher fallback) pitcher else pitcher in
    let outs := if invalid then orElseOpt (fb_outs fallback) outs else outs in
    let firstText := orDefault firstCell "" in
    if test (Cat Bol (Alt (LitI "top of the") (LitI "bottom of the"))) firstText
    then Some (ParsedHalfRow (if test (Cat Bol (LitI "top")) firstText then top else bottom))
    else if test (LitI "inning summary:") firstText then None
    else
      match play with
      | None => None
      | Some p =>
          if isEmptyStr p || String.eqb (toLowerCase p) "play" then None
          else if test reAllDigits p then None
          else
            let halfAndInning :=
              if truthy firstText then parseHalfAndInning firstText else None in
            Some (ParsedPlayRow
                    (match halfAndInning with Some hi => snd hi | None => None end)
                    (match halfAndInning with Some hi => fst hi | None => None end)
                    p (isSubstitutionText p) scoringDecision batter pitcher outs)
      end.

(** [normalizeSignatureValue] on each kind of value it is applied to. *)
Definition normalizeSignatureValue `{HtmlEntities} (value : option string) : string :=
  match value with
  | None => ""
  | Some v => toLowerCase (cleanText (Some v))
  end.

Definition digest `{Sha1} (input : string) : string := slice (sha1_hex input) 0 20.

Definition signatureOf `{HtmlEntities} (inning : option Z) (half : option Half) (text : string)
    (batter pitcher : option string) (outs : option Z) (scoringDecision : option string) : string :=
  normalizeSignatureValue (option_map stringOfZ inning) ++ "|"
  ++ normalizeSignatureValue (option_map halfName half) ++ "|"
  ++ normalizeSignatureValue (Some text) ++ "|"
  ++ normalizeSignatureValue batter ++ "|"
  ++ normalizeSignatureValue pitcher ++ "|"
  ++ normalizeSignatureValue (option_map stringOfZ outs) ++ "|"
  ++ normalizeSignatureValue scoringDecision.

(** What the loops of [extractLivePlayEvents] update. *)
Record ExtractState : Type := MkExtract {
  x_events : list LivePlayEvent;
  x_occurrenceBySignature : gmap string Z;
  x_order : Z
}.

(** One iteration of [for (const row of table.rows)]. *)
Definition extractRow `{HtmlEntities} `{Sha1} (sectionTitle : string) (inningFromTitle : option Z)
    (table : StatsTable) (acc : option Half * ExtractState) (row : StatsTableRow)
    : option Half * ExtractState :=
  let '(currentHalf, st) := acc in
  match parsePlayRow table row with
  | None => acc
  | Some (ParsedHalfRow h) => (Some h, st)
  | Some (ParsedPlayRow pInning pHalf pText pSub pDecision pBatter pPitcher pOuts) =>
      let inning := orElseOpt pInning inningFromTitle in
      let half := orElseOpt pHalf currentHalf in
      let signature := signatureOf inning half pText pBatter pPitcher pOuts pDecision in
      let occurrence := orDefault (x_occurrenceBySignature st !! signature) 0 + 1 in
      let order := x_order st + 1 in
      let event :=
        MkLivePlay (digest (signature ++ "|" ++ stringOfZ occurrence)) order inning half
          pSub pText pDecision pBatter pPitcher pOuts sectionTitle in
      (currentHalf,
       MkExtract (app (x_events st) [event])
         (<[signature := occurrence]> (x_occurrenceBySignature st)) order)
  end.

Definition extractTable `{HtmlEntities} `{Sha1} (sectionTitle : string)
    (inningFromTitle : option Z) (st : ExtractState) (table : StatsTable) : ExtractState :=
  snd (fold_left (extractRow sectionTitle inningFromTitle table) (rows table) (None, st)).

Definition extractSection `{HtmlEntities} `{Sha1} (st : ExtractState) (section : StatsSection)
    : ExtractState :=
  if negb (test (LitI "play-by-play") (title section)) then st
  else
    fold_left (extractTable (title section) (parseInningFromTitle (title section)))
      (tables section) st.

Definition extractLivePlayEvents `{HtmlEntities} `{Sha1} (liveStats : StatBroadcastLiveStats)
    : list LivePlayEvent :=
  x_events (fold_left extractSection (sections liveStats) (MkExtract [] ∅ 0)).

(** ** Sample inputs

    Entity-free texts, on which [he.decode] is the identity. *)

Definition plainText : HtmlEntities := fun s => s.

Definition samplePlay (key : string) (half : Half) (text : string) (outs : Z) : LivePlayEvent :=
  MkLivePlay key 1 (Some 9) (Some half) false text None (Some "Poe,Ian") (Some "Smith,Alex")
    (Some outs) "9th Inning Play-by-play".

Definition sampleSummary (visitorScore homeScore : Z) : StatBroadcastLiveSummary :=
  MkSummary (Some "Top 9th") "Kent State" "#1 LSU" (Some visitorScore) (Some homeScore)
    (Some (MkSituation None (MkPitcher None (Some 32)))) false.



(** A rewriter that leaves the play text as it is. *)
Definition keepNames : NameRewriter := fun text _ => text.



(** ** Reference walks for the state deriver

    [scoreBefore] is the step of the backward walk on the running totals
    alone: the totals that stand once [play] has been recorded and its
    runs taken back.  [scoreRecordedAt] is the running score met by the
    play that is followed by [later]. *)

Definition scoreBefore `{HtmlEntities} (play : LivePlayEvent) (score : option Z * option Z)
    : option Z * option Z :=
  let runs := estimateRunsScoredOnPlay play in
  if 0 <? runs then
    match inferBattingSide play with
    | Some away => (option_map (fun a => Z.max 0 (a - runs)) (fst score), snd score)
    | Some home => (fst score, option_map (fun h => Z.max 0 (h - runs)) (snd score))
    | None => score
    end
  else score.

Definition scoreRecordedAt `{HtmlEntities} (summary : StatBroadcastLiveSummary)
    (later : list LivePlayEvent) : option Z * option Z :=
  fold_right scoreBefore (visitorScore summary, homeScore_ summary) later.






Definition scoresOf (state : DerivedPlayState) : option Z * option Z :=
  (awayScore state, homeScore state).

(** ** Auxiliary predicates *)


Definition noMatch (lower : string) (m : BaseballPlayOutcome * regex * string) : Prop :=
  test (snd (fst m)) lower = false.

Definition allPresent (l : list LivePlayEvent) (m : gmap string DerivedPlayState) : Prop :=
  forall p, In p l -> is_Some (m !! key p).

Definition outsField (m : gmap string DerivedPlayState) (k : string) : option (option Z) :=
  outsAfterPlay <$> m !! k.

Definition scoreField (m : gmap string DerivedPlayState) (k : string)
    : option (option Z * option Z) :=
  scoresOf <$> m !! k.

Definition scoreWithin (bound value : option Z) : Prop :=
  forall v, bound = Some v -> 0 <= v -> exists x, value = Some x /\ 0 <= x <= v.

(** Two plays of the top of the 9th: a strikeout, then a home run. *)
Definition strikeoutThenHomer : list LivePlayEvent :=
  [ samplePlay "k1" top "Doe,John struck out looking (0-2 KKFK)." 0;
    samplePlay "k2" top "Roe,Max homered to left field, RBI (1-0 B)." 1 ].


(** ** Registry runs *)









(** ** Keys of the live play events *)






(** A stand-in digest without collision on the sample rows. *)
Definition reversedText : Sha1 := fun s => str (rev (chars s)).

Definition playHeaders : list string := [""; "Play"; "Scoring Dec."; "Batter"; "Pitcher"; "Outs"].


(** ** Reading the unified play list *)

Definition isMatch (i : nat) (found : option nat) : bool := optEqb Nat.eqb found (Some i).

(** How many play-by-play plays were matched with entry [i]. *)
Definition timesMatched (trace : list (option nat)) (i : nat) : nat :=
  length (List.filter (isMatch i) trace).

(** The entries no play-by-play play was matched with, in timeline order. *)
Definition unmatchedIndices (trace : list (option nat)) (n : nat) : list nat :=
  List.filter (fun i => negb (existsb (isMatch i) trace)) (seq 0 n).

(** A play-by-play play and the timeline entry it was matched with: the
    entry lies in the play's inning and half and its scoring decision and
    fielder data are the play's. *)
Definition mergedWith (scoringTimeline : list BaseballScoringEvent)
    (play : BaseballUnifiedPlay) (found : option nat) : Prop :=
  up_source play = play_by_play
  /\ up_battedBall play = battedBallOf (decisionContext (up_scoring play))
  /\ match found with
     | Some index =>
         exists scoring,
           nth_error scoringTimeline index = Some scoring
           /\ se_inningNumber scoring = up_inning play
           /\ se_half scoring = up_half play
           /\ decisionRaw (up_scoring play) = se_scoringDecision scoring
           /\ decisionContext (up_scoring play)
              = orElseOpt (se_scoringDecisionContext scoring)
                  (resolveScoringDecisionContext None (up_text play))
           /\ res_isScoringPlay (up_result play) = true
     | None =>
         decisionRaw (up_scoring play) = None
         /\ decisionContext (up_scoring play) = resolveScoringDecisionContext None (up_text play)
     end.

(** The standalone play emitted for timeline entry [index]. *)
Definition standaloneOf (scoringTimeline : list BaseballScoringEvent)
    (play : BaseballUnifiedPlay) (index : nat) : Prop :=
  exists scoring,
    nth_error scoringTimeline index = Some scoring
    /\ up_source play = scoring_summary
    /\ up_playId play = "S-" ++ stringOfZ (Z.of_nat index + 1)
    /\ up_text play = se_text scoring
    /\ up_inning play = se_inningNumber scoring
    /\ up_half play = se_half scoring
    /\ up_order play = None
    /\ up_scoring play
       = MkScoring (se_scoringDecision scoring) (se_scoringDecisionContext scoring)
    /\ up_battedBall play = battedBallOf (se_scoringDecisionContext scoring)
    /\ up_result play
       = MkResult (se_outcome scoring) (se_tags scoring) (se_runsScoredOnPlay scoring) true
           (se_outs scoring).

(** What the used set and the trace satisfy together. *)
Definition traceInv (scoringTimeline : list BaseballScoringEvent) (used : gset nat)
    (trace : list (option nat)) : Prop :=
  (forall i, i ∈ used <-> In (Some i) trace)
  /\ (forall i, (timesMatched trace i <= 1)%nat)
  /\ (forall i, In (Some i) trace -> (i < length scoringTimeline)%nat).

(** The play-by-play pass and the trace in step. *)
Definition inStep (scoringTimeline : list BaseballScoringEvent) (st : UnifyState)
    (used : gset nat) (trace : list (option nat)) : Prop :=
  u_usedScoring st = used /\ Forall2 (mergedWith scoringTimeline) (u_plays st) trace.

(** An RBI single in the play-by-play feed and the same play, reworded,
    in the scoring summary; a second summary entry has no counterpart. *)
Definition sampleFinalGame : StatBroadcastFinalGame :=
  MkFinalGame "Kent State" "LSU"
    [MkInning 1 "1st Inning"
       [MkFinalEvent ev_half (Some top) "Top of the 1st" None None None None None;
        MkFinalEvent ev_play None "Roe,Max singled to center field, RBI; Lane,Chris scored."
          None None (Some "Roe,Max") (Some "Smith,Alex") (Some 0);
        MkFinalEvent ev_play None "Doe,John struck out looking (0-2 KKFK)."
          None None (Some "Doe,John") (Some "Smith,Alex") (Some 1)]].

Definition sampleScoringTimeline : list BaseballScoringEvent :=
  map parseScoringEvent
    [MkScoringPlay (Some "Kent State") (Some "Top 1st") (Some "1B 8 1RBI")
       "Roe singled up the middle, RBI; Lane scored." (Some "Roe,Max") (Some "Smith,Alex")
       (Some 0);
     MkScoringPlay (Some "LSU") (Some "Bot 3rd") (Some "HR 7 1RBI")
       "Cole homered to left field, RBI." (Some "Cole,Ben") (Some "Lee,Tom") (Some 1)].

Definition sampleTeamLookup : gmap string TeamSide :=
  <["kent state" := away]> (<["lsu" := home]> ∅).

(** The text normalization the way the specification words it: case and
    whitespace only. *)
Definition caseAndWhitespaceNormalized (value : string) : string :=
  trim (collapseSpaces (toLowerCase value)).

(** A play-by-play event and a scoring-summary entry of the top of the
    1st whose texts differ in punctuation and whose batter names differ. *)
Definition punctuatedEvent : FinalPlayByPlayEvent :=
  MkFinalEvent ev_play None "Roe,Max singled to center field, RBI." None None
    (Some "Roe,Max") (Some "Smith,Alex") (Some 0).

Definition punctuatedEntry : BaseballScoringEvent :=
  parseScoringEvent
    (MkScoringPlay (Some "Kent State") (Some "Top 1st") (Some "1B 8 1RBI")
       "Roe,Max singled to center field RBI" (Some "Roe") (Some "Smith,Alex") (Some 0)).

(** Two feeds of the repository's test suite. *)
Definition ninthInningFeed : StatBroadcastLiveStats :=
  MkLiveStats
    [MkSection "9th Inning Play-by-play"
       [MkTable playHeaders
          [MkRow [CStr "Top of the 9th"; CNull; CNull; CNull; CNull; CNull];
           MkRow [CNull; CStr "Roe,Max singled to center field, RBI; Lane,Chris scored.";
                  CStr "1B 1RBI"; CStr "Roe,Max"; CStr "Smith,Alex"; CNum 0];
           MkRow [CNull; CStr "Doe,John struck out looking (0-2 KKFK)."; CNull;
                  CStr "Doe,John"; CStr "Smith,Alex"; CNum 1];
           MkRow [CNull; CStr "Poe,Ian flied out to rf (1-1 BK)."; CNull;
                  CStr "Poe,Ian"; CStr "Smith,Alex"; CNum 2];
           MkRow [CStr "Bottom of the 9th"; CNull; CNull; CNull; CNull; CNull];
           MkRow [CNull; CStr "Cole,Ben grounded out to 2b (1-2)."; CNull;
                  CStr "Cole,Ben"; CStr "Lee,Tom"; CNum 0]]]].

Definition substitutionFeed : StatBroadcastLiveStats :=
  MkLiveStats
    [MkSection "9th Inning Play-by-play"
       [MkTable playHeaders
          [MkRow [CStr "Top of the 9th"; CNull; CNull; CNull; CNull; CNull];
           MkRow [CNull; CStr "Marsh to p for Buczkowski."; CNull; CNull; CNull; CNum 1];
           MkRow [CNull; CStr "I. Warrick pinch ran for W. Helms."; CNull; CNull; CNull; CNum 1];
           MkRow [CNull; CStr "M. Price pinch hit for Pierzynski."; CNull; CNull; CNull; CNum 1];
           MkRow [CNull; CStr "Doe,John struck out looking (0-2 KKFK)."; CNull;
                  CStr "Doe,John"; CStr "Marsh"; CNum 1]]]].

(** The derived state of every play of a feed, in play order. *)
Definition statesInOrder `{HtmlEntities} `{Sha1} (feed : StatBroadcastLiveStats)
    (summary : StatBroadcastLiveSummary) : list (option (option Z * option Z * option Z)) :=
  let plays := extractLivePlayEvents feed in
  map (fun p =>
         option_map (fun st => (awayScore st, homeScore st, outsAfterPlay st))
           (deriveLivePlayStates plays summary !! key p))
    plays.

(** The play of the tweet-format test: bottom of the 7th, two outs. *)
Definition seventhInningInput : BuildPlayTweetTextInput :=
  MkPlayTweetInput
    (MkLivePlay "k" 1 (Some 7) (Some bottom) false "Batter Name struck out looking (0-2 KKFK)."
       None (Some "Batter Name") (Some "Pitcher Name") (Some 2) "7th Inning Play-by-play")
    (MkSummary (Some "Bottom 7th") "Wake Forest" "Houston" (Some 4) (Some 6)
       (Some (MkSituation (Some 2) (MkPitcher None (Some 32)))) false)
    None (Some (Finite 280)) (Some "#NCAABaseball").

(** * Properties *)

(** ** Strings and the matcher *)










Lemma midEnd_mid (s : string) : test reMidEnd ("Mid " ++ s) = true.
Proof. reflexivity. Qed.

Lemma midEnd_end (s : string) : test reMidEnd ("End " ++ s) = true.
Proof. reflexivity. Qed.



(** ** Inning label and header line *)




(** ** Tweet length *)







(** When the text does not fit, what is returned is a right-trimmed prefix
    of it followed by the ellipsis. *)
Lemma trimToTweetLength_shape (text : string) (maxLength : Z) :
  (Z.of_nat (String.length text) <= maxLength -> trimToTweetLength text maxLength = text)
  /\ (maxLength < Z.of_nat (String.length text) ->
      trimToTweetLength text maxLength
      = trimEnd (slice text 0 (Z.to_nat (Z.max 0 (maxLength - 3)))) ++ "...").
Proof.
  unfold trimToTweetLength.
  destruct (Z.leb_spec (Z.of_nat (String.length text)) maxLength); split; intros; try reflexivity; lia.
Qed.




(** ** Play description parser *)

Lemma in_addTag (value t : string) (tags : list string) :
  In t (addTag value tags) <-> In t tags \/ t = value.
Proof.
  unfold addTag. destruct (existsb (String.eqb value) tags) eqn:Hex.
  - apply existsb_exists in Hex as [x [Hin Heq]]. apply String.eqb_eq in Heq. subst x.
    split; [now left | intros [Hin'| ->]; assumption].
  - rewrite in_app_iff. simpl. intuition congruence.
Qed.


Lemma firstMatcher_hit (lower : string) (tags : list string)
    (before after : list (BaseballPlayOutcome * regex * string))
    (outcome : BaseballPlayOutcome) (pattern : regex) (tag : string) :
  Forall (noMatch lower) before ->
  test pattern lower = true ->
  firstMatcher (before ++ (outcome, pattern, tag) :: after) lower tags = (outcome, addTag tag tags).
Proof.
  intros Hbefore Hhit. induction Hbefore as [|[[o p] t] before Hno _ IH]; simpl.
  - now rewrite Hhit.
  - unfold noMatch in Hno. simpl in Hno. now rewrite Hno.
Qed.

Lemma firstMatcher_miss (lower : string) (tags : list string)
    (matchers : list (BaseballPlayOutcome * regex * string)) :
  Forall (noMatch lower) matchers -> firstMatcher matchers lower tags = (other, tags).
Proof.
  intros Hall. induction Hall as [|[[o p] t] rest Hno _ IH]; simpl; [reflexivity|].
  unfold noMatch in Hno. simpl in Hno. now rewrite Hno.
Qed.

Lemma detectTags_spec (lower t : string) :
  In t (detectTags lower) <->
    (t = "double_play" /\ test (word "double play") lower = true)
    \/ (t = "triple_play" /\ test (word "triple play") lower = true)
    \/ (t = "run_scored" /\ test (Alt (word "scored") (word "scores")) lower = true)
    \/ (t = "rbi" /\ test (word "rbi") lower = true).
Proof.
  unfold detectTags.
  destruct (test (word "double play") lower), (test (word "triple play") lower),
    (test (Alt (word "scored") (word "scores")) lower), (test (word "rbi") lower);
    cbn; intuition (subst; auto; discriminate).
Qed.

(** C6.  [parsePlayDescription] returns the outcome of the first matcher,
    in the fixed order home_run, triple, double, single, ..., whose pattern
    matches the lower-cased text, and "other" when none matches; the tags
    double_play, triple_play, run_scored and rbi are detected by their own
    tests, whatever the outcome, and the returned tag set is their union
    with the tag of the matcher that fired.  On the home-run sentence of
    the example the outcome is home_run and the tags are rbi and
    home_run. *)
Theorem parsePlayDescription_ordered_first_match (text : string) :
  let lower := toLowerCase text in
  map (fun m => fst (fst m)) orderedMatchers
  = [home_run; triple; double; single; intentional_walk; walk; hit_by_pitch; caught_stealing;
     pickoff; stolen_base; strikeout; ground_out; fly_out; line_out; foul_out; sacrifice;
     fielder_choice; reached_on_error; wild_pitch; passed_ball; balk]
  /\ (forall before after outcome pattern tag,
        orderedMatchers = (before ++ (outcome, pattern, tag) :: after)%list ->
        Forall (noMatch lower) before ->
        test pattern lower = true ->
        fst (parsePlayDescription text) = outcome
        /\ forall t, In t (snd (parsePlayDescription text)) <-> In t (detectTags lower) \/ t = tag)
  /\ (Forall (noMatch lower) orderedMatchers ->
        parsePlayDescription text = (other, detectTags lower))
  /\ (forall t, In t (detectTags lower) <->
        (t = "double_play" /\ test (word "double play") lower = true)
        \/ (t = "triple_play" /\ test (word "triple play") lower = true)
        \/ (t = "run_scored" /\ test (Alt (word "scored") (word "scores")) lower = true)
        \/ (t = "rbi" /\ test (word "rbi") lower = true))
  /\ parsePlayDescription "Barrett,Drey homered to left field, RBI (2-1 BKB)."
     = (home_run, ["rbi"; "home_run"]).
Proof.
  intros lower. split; [reflexivity|]. split; [|split; [|split]].
  - intros before after outcome pattern tag Hsplit Hbefore Hhit.
    unfold parsePlayDescription. fold lower. rewrite Hsplit.
    rewrite (firstMatcher_hit lower _ before after outcome pattern tag Hbefore Hhit).
    split; [reflexivity|]. intros t. apply in_addTag.
  - intros Hall. unfold parsePlayDescription. fold lower. now apply firstMatcher_miss.
  - apply detectTags_spec.
  - vm_compute. reflexivity.
Qed.

Lemma parsePlayDescription_ordered_first_match_witness :
  let text := "Goldstein,Cade singled to right field, RBI (3-2 BKSBFB); Kelly,Rowan scored." in
  fst (parsePlayDescription text) = single
  /\ forall t, In t (snd (parsePlayDescription text))
               <-> In t (detectTags (toLowerCase text)) \/ t = "single".
Proof.
  intros text.
  pose proof (parsePlayDescription_ordered_first_match text) as [_ [Hfirst _]].
  apply (Hfirst (firstn 3 orderedMatchers) (skipn 4 orderedMatchers) single
           (Alt (word "singled") (word "single")) "single").
  - reflexivity.
  - repeat constructor.
  - vm_compute. reflexivity.
Defined.

(** ** Scoring-decision context *)





(** ** Play state deriver *)

Section Deriver.
Context `{HtmlEntities}.




Lemma initialStates_fold (plays : list LivePlayEvent) (summary : StatBroadcastLiveSummary)
    (m : gmap string DerivedPlayState) (k : string) :
  let m' :=
    fold_left (fun states play =>
                 <[key play := MkState (visitorScore summary) (homeScore_ summary) (outs play)]> states)
      plays m in
  (In k (map key plays) -> scoreField m' k = Some (visitorScore summary, homeScore_ summary))
  /\ (~ In k (map key plays) -> m' !! k = m !! k).
Proof.
  revert m. induction plays as [|p plays IH]; intros m; simpl.
  - split; [intros [] | reflexivity].
  - specialize (IH (<[key p := MkState (visitorScore summary) (homeScore_ summary) (outs p)]> m)).
    simpl in IH. destruct IH as [IHin IHout]. split.
    + intros Hin. destruct (in_dec string_dec k (map key plays)) as [Hlater|Hlater].
      * now apply IHin.
      * destruct Hin as [<-|Hin]; [|contradiction].
        unfold scoreField. rewrite (IHout Hlater), lookup_insert_eq. reflexivity.
    + intros Hnot. rewrite IHout by tauto. apply lookup_insert_ne. tauto.
Qed.

Lemma initialStates_scores (plays : list LivePlayEvent) (summary : StatBroadcastLiveSummary)
    (p : LivePlayEvent) :
  In p plays ->
  scoreField (initialStates plays summary) (key p)
  = Some (visitorScore summary, homeScore_ summary).
Proof.
  intros Hin. apply (initialStates_fold plays summary ∅ (key p)). now apply in_map.
Qed.

Lemma initialStates_present (plays : list LivePlayEvent) (summary : StatBroadcastLiveSummary) :
  allPresent plays (initialStates plays summary).
Proof.
  intros p Hin. pose proof (initialStates_scores plays summary p Hin) as Hs.
  unfold scoreField in Hs. destruct (initialStates plays summary !! key p); [eauto | discriminate].
Qed.

Lemma scoreStep_present (m : gmap string DerivedPlayState) (a h : option Z)
    (p : LivePlayEvent) (st : DerivedPlayState) :
  m !! key p = Some st ->
  scoreStep (m, a, h) p
  = (<[key p := MkState a h (outsAfterPlay st)]> m,
     fst (scoreBefore p (a, h)), snd (scoreBefore p (a, h))).
Proof.
  intros Hst. unfold scoreStep, scoreBefore. rewrite Hst.
  destruct (0 <? estimateRunsScoredOnPlay p); cbn [andb]; [|reflexivity].
  unfold inferBattingSide. destruct (half p) as [[|]|], a, h; reflexivity.
Qed.

(** The backward loop from an accumulator in which every play has a state. *)
Lemma scoreFold_spec (l : list LivePlayEvent) (m : gmap string DerivedPlayState)
    (score : option Z * option Z) :
  allPresent l m ->
  let result := fold_left scoreStep l (m, fst score, snd score) in
  let m' := fst (fst result) in
  (snd (fst result), snd result) = fold_left (fun s p => scoreBefore p s) l score
  /\ (forall k, outsField m' k = outsField m k)
  /\ (forall k, ~ In k (map key l) -> m' !! k = m !! k)
  /\ (forall l1 p l2, l = (l1 ++ p :: l2)%list -> ~ In (key p) (map key l2) ->
        scoreField m' (key p) = Some (fold_left (fun s p => scoreBefore p s) l1 score)).
Proof.
  revert m score. induction l as [|q l IH]; intros m score Hpresent; cbn zeta.
  - simpl. split; [now destruct score|]. split; [reflexivity|]. split; [reflexivity|].
    intros [|] ? ? ?; discriminate.
  - destruct (Hpresent q (or_introl eq_refl)) as [st Hst].
    cbn [fold_left]. rewrite (scoreStep_present m _ _ q st Hst).
    set (m1 := <[key q := MkState (fst score) (snd score) (outsAfterPlay st)]> m).
    assert (allPresent l m1) as Hpresent1.
    { intros p Hin. subst m1. destruct (decide (key q = key p)) as [Heq|Hne].
      - rewrite Heq, lookup_insert_eq. eauto.
      - rewrite lookup_insert_ne by exact Hne. apply Hpresent. now right. }
    specialize (IH m1 (scoreBefore q (fst score, snd score)) Hpresent1). cbn zeta in IH.
    destruct IH as [IHscore [IHouts [IHother IHat]]].
    replace (fst score, snd score) with score in * by now destruct score.
    split; [exact IHscore|]. split; [|split].
    + intros k. rewrite IHouts. unfold outsField. subst m1.
      destruct (decide (key q = k)) as [<-|Hne].
      * now rewrite lookup_insert_eq, Hst.
      * now rewrite lookup_insert_ne.
    + intros k Hnot. simpl in Hnot. rewrite IHother by tauto. subst m1.
      apply lookup_insert_ne. tauto.
    + intros l1 p l2 Hsplit Hfresh. destruct l1 as [|q' l1]; simpl in Hsplit.
      * injection Hsplit as <- <-. unfold scoreField. rewrite (IHother _ Hfresh).
        subst m1. rewrite lookup_insert_eq. now destruct score.
      * injection Hsplit as <- ->. simpl. now apply (IHat l1 p l2).
Qed.

Lemma scorePass_spec (plays : list LivePlayEvent) (summary : StatBroadcastLiveSummary)
    (m : gmap string DerivedPlayState) :
  allPresent plays m ->
  (forall k, outsField (scorePass plays summary m) k = outsField m k)
  /\ (forall k, is_Some (scorePass plays summary m !! k) <-> is_Some (m !! k))
  /\ (forall before p later, plays = (before ++ p :: later)%list ->
        ~ In (key p) (map key before) ->
        scoreField (scorePass plays summary m) (key p) = Some (scoreRecordedAt summary later)).
Proof.
  intros Hpresent.
  assert (allPresent (rev plays) m) as Hrev.
  { intros p Hin. apply Hpresent. now apply in_rev. }
  pose proof (scoreFold_spec (rev plays) m (visitorScore summary, homeScore_ summary) Hrev)
    as [_ [Houts [_ Hat]]].
  cbn zeta in Houts, Hat. cbn [fst snd] in Houts, Hat. fold (scorePass plays summary m) in Houts, Hat.
  split; [exact Houts|]. split.
  - intros k. specialize (Houts k). unfold outsField in Houts.
    destruct (scorePass plays summary m !! k), (m !! k); simpl in Houts;
      split; intros [? ?]; eauto; discriminate.
  - intros before p later Hsplit Hfresh.
    rewrite (Hat (rev later) p (rev before)).
    + unfold scoreRecordedAt. now rewrite <- fold_left_rev_right, rev_involutive.
    + rewrite Hsplit, rev_app_distr. simpl. now rewrite <- app_assoc.
    + rewrite map_rev. now rewrite <- in_rev.
Qed.

Lemma outsPass_spec (plays : list LivePlayEvent) (m : gmap string DerivedPlayState) :
  allPresent plays m ->
  (forall k, scoreField (outsPass plays m) k = scoreField m k)
  /\ (forall k, ~ In k (map key plays) -> outsPass plays m !! k = m !! k)
  /\ (forall before p later, plays = (before ++ p :: later)%list ->
        ~ In (key p) (map key later) ->
        outsField (outsPass plays m) (key p) = Some (outsAfter p (hd_error later))).
Proof.
  revert m. induction plays as [|q rest IH]; intros m Hpresent.
  - simpl. split; [reflexivity|]. split; [reflexivity|]. intros [|] ? ? ?; discriminate.
  - destruct (Hpresent q (or_introl eq_refl)) as [st Hst].
    cbn [outsPass]. rewrite Hst.
    set (m1 := <[key q := MkState (awayScore st) (homeScore st) (outsAfter q (hd_error rest))]> m).
    assert (allPresent rest m1) as Hpresent1.
    { intros p Hin. subst m1. destruct (decide (key q = key p)) as [Heq|Hne].
      - rewrite Heq, lookup_insert_eq. eauto.
      - rewrite lookup_insert_ne by exact Hne. apply Hpresent. now right. }
    destruct (IH m1 Hpresent1) as [IHscore [IHother IHat]].
    split; [|split].
    + intros k. rewrite IHscore. unfold scoreField. subst m1.
      destruct (decide (key q = k)) as [<-|Hne].
      * now rewrite lookup_insert_eq, Hst.
      * now rewrite lookup_insert_ne.
    + intros k Hnot. simpl in Hnot. rewrite IHother by tauto. subst m1.
      apply lookup_insert_ne. tauto.
    + intros before p later Hsplit Hfresh. destruct before as [|q' before]; simpl in Hsplit.
      * injection Hsplit as <- <-. unfold outsField. rewrite (IHother _ Hfresh).
        subst m1. now rewrite lookup_insert_eq.
      * injection Hsplit as <- ->. now apply (IHat before p later).
Qed.

(** The state stored under a key: its score comes from the first play
    with that key, its outs from the last one. *)
Lemma deriveLivePlayStates_spec (plays : list LivePlayEvent)
    (summary : StatBroadcastLiveSummary) (before later : list LivePlayEvent) (p : LivePlayEvent) :
  plays = (before ++ p :: later)%list ->
  (~ In (key p) (map key before) ->
     scoreField (deriveLivePlayStates plays summary) (key p)
     = Some (scoreRecordedAt summary later))
  /\ (~ In (key p) (map key later) ->
     outsField (deriveLivePlayStates plays summary) (key p)
     = Some (outsAfter p (hd_error later))).
Proof.
  intros Hsplit. unfold deriveLivePlayStates.
  pose proof (initialStates_present plays summary) as Hinit.
  destruct (scorePass_spec plays summary _ Hinit) as [_ [Hdom Hscore]].
  assert (allPresent plays (scorePass plays summary (initialStates plays summary))) as Hpresent.
  { intros q Hin. apply Hdom. now apply Hinit. }
  destruct (outsPass_spec plays _ Hpresent) as [Hkeep [_ Houts]].
  split.
  - intros Hfresh. rewrite Hkeep. now apply (Hscore before p later).
  - intros Hfresh. now apply (Houts before p later).
Qed.

Lemma first_occurrence (plays : list LivePlayEvent) (k : string) :
  In k (map key plays) ->
  exists before p later,
    plays = (before ++ p :: later)%list /\ key p = k /\ ~ In k (map key before).
Proof.
  induction plays as [|q plays IH]; simpl; [intros []|]. intros Hin.
  destruct (string_dec (key q) k) as [Heq|Hne].
  - exists [], q, plays. simpl. tauto.
  - destruct IH as [before [p [later [-> [Hk Hfresh]]]]]; [tauto|].
    exists (q :: before), p, later. simpl. tauto.
Qed.

Lemma last_occurrence (plays : list LivePlayEvent) (k : string) :
  In k (map key plays) ->
  exists before p later,
    plays = (before ++ p :: later)%list /\ key p = k /\ ~ In k (map key later).
Proof.
  induction plays as [|q plays IH]; simpl; [intros []|]. intros Hin.
  destruct (in_dec string_dec k (map key plays)) as [Hlater|Hlater].
  - destruct (IH Hlater) as [before [p [later [-> [Hk Hfresh]]]]].
    exists (q :: before), p, later. simpl. tauto.
  - destruct Hin as [Heq|Hin]; [|contradiction].
    exists [], q, plays. simpl. tauto.
Qed.


Lemma state_of_fields (m : gmap string DerivedPlayState) (k : string)
    (score : option Z * option Z) (o : option Z) :
  scoreField m k = Some score -> outsField m k = Some o ->
  m !! k = Some (MkState (fst score) (snd score) o).
Proof.
  unfold scoreField, outsField. destruct (m !! k) as [[a h o']|]; simpl; [|discriminate].
  now intros [= <-] [= <-].
Qed.


Lemma scoreBefore_within (bound1 bound2 : option Z) (p : LivePlayEvent)
    (score : option Z * option Z) :
  scoreWithin bound1 (fst score) -> scoreWithin bound2 (snd score) ->
  scoreWithin bound1 (fst (scoreBefore p score)) /\ scoreWithin bound2 (snd (scoreBefore p score)).
Proof.
  intros H1 H2. unfold scoreBefore.
  destruct (Z.ltb_spec 0 (estimateRunsScoredOnPlay p)) as [Hruns|_]; [|tauto].
  destruct (inferBattingSide p) as [[|]|]; cbn [fst snd]; [| |tauto]; split; try assumption.
  - intros v Hv Hpos. destruct (H1 v Hv Hpos) as [x [-> Hx]]. simpl. eexists. split; [reflexivity|lia].
  - intros v Hv Hpos. destruct (H2 v Hv Hpos) as [x [-> Hx]]. simpl. eexists. split; [reflexivity|lia].
Qed.

Lemma scoreRecordedAt_within (summary : StatBroadcastLiveSummary) (later : list LivePlayEvent) :
  scoreWithin (visitorScore summary) (fst (scoreRecordedAt summary later))
  /\ scoreWithin (homeScore_ summary) (snd (scoreRecordedAt summary later)).
Proof.
  induction later as [|p later IH]; simpl.
  - split; intros v Hv Hpos; exists v; (split; [assumption | lia]).
  - now apply scoreBefore_within.
Qed.

Lemma clampOuts_range (value : Z) : 0 <= clampOuts value <= 3.
Proof. unfold clampOuts. lia. Qed.

Lemma outsAfter_range (p : LivePlayEvent) (next : option LivePlayEvent) (o : Z) :
  outsAfter p next = Some o -> 0 <= o <= 3.
Proof.
  unfold outsAfter.
  destruct (match next with Some n => if isSameHalfInning p n then outs n else None | None => None end).
  - intros [= <-]. apply clampOuts_range.
  - destruct (match next with Some n => negb (isSameHalfInning p n) | None => false end).
    + intros [= <-]. lia.
    + destruct (outs p); [|discriminate]. intros [= <-]. apply clampOuts_range.
Qed.

(** C10.  Every play of the list has a derived state; its outs after the
    play are null or an integer between 0 and 3, and whenever the
    summary's visitor (home) score is a non-negative number its away
    (home) score is a number between 0 and that score. *)
Theorem derived_states_in_range (plays : list LivePlayEvent)
    (summary : StatBroadcastLiveSummary) (p : LivePlayEvent) :
  In p plays ->
  exists st,
    deriveLivePlayStates plays summary !! key p = Some st
    /\ (outsAfterPlay st = None \/ exists o, outsAfterPlay st = Some o /\ 0 <= o <= 3)
    /\ (forall v, visitorScore summary = Some v -> 0 <= v ->
          exists a, awayScore st = Some a /\ 0 <= a <= v)
    /\ (forall v, homeScore_ summary = Some v -> 0 <= v ->
          exists h, homeScore st = Some h /\ 0 <= h <= v).
Proof.
  intros Hin. apply (in_map key) in Hin.
  destruct (first_occurrence plays (key p) Hin) as [b1 [p1 [l1 [Hsplit1 [Hk1 Hfresh1]]]]].
  destruct (last_occurrence plays (key p) Hin) as [b2 [p2 [l2 [Hsplit2 [Hk2 Hfresh2]]]]].
  rewrite <- Hk1 in Hfresh1. rewrite <- Hk2 in Hfresh2.
  destruct (deriveLivePlayStates_spec plays summary b1 l1 p1 Hsplit1) as [Hscore _].
  destruct (deriveLivePlayStates_spec plays summary b2 l2 p2 Hsplit2) as [_ Houts].
  specialize (Hscore Hfresh1). specialize (Houts Hfresh2). rewrite Hk1 in Hscore. rewrite Hk2 in Houts.
  rewrite (state_of_fields _ _ _ _ Hscore Houts). eexists. split; [reflexivity|].
  cbn [outsAfterPlay awayScore homeScore].
  destruct (scoreRecordedAt_within summary l1) as [Haway Hhome].
  split; [|split; assumption].
  destruct (outsAfter p2 (hd_error l2)) as [o|] eqn:Ho; [right | now left].
  exists o. split; [reflexivity|]. now apply (outsAfter_range p2 (hd_error l2)).
Qed.



End Deriver.






Lemma derived_states_in_range_witness :
  exists st,
    deriveLivePlayStates (H := plainText) strikeoutThenHomer (sampleSummary 7 10) !! "k2" = Some st
    /\ (outsAfterPlay st = None \/ exists o, outsAfterPlay st = Some o /\ 0 <= o <= 3)
    /\ (exists a, awayScore st = Some a /\ 0 <= a <= 7)
    /\ (exists h, homeScore st = Some h /\ 0 <= h <= 10).
Proof.
  destruct (@derived_states_in_range plainText strikeoutThenHomer (sampleSummary 7 10)
              (samplePlay "k2" top "Roe,Max homered to left field, RBI (1-0 B)." 1))
    as [st [Hst [Houts [Haway Hhome]]]].
  - right. left. reflexivity.
  - exists st. split; [exact Hst|]. split; [exact Houts|]. split.
    + apply (Haway 7 eq_refl). lia.
    + apply (Hhome 10 eq_refl). lia.
Defined.

(** ** Decimal numerals *)






(** ** Player registry *)



























(** ** Keys of the live play events *)









Section Extraction.
Context `{HtmlEntities} `{Sha1}.









End Extraction.


(** ** Play unifier *)

Lemma firstIndex_Some {A} (p : nat -> A -> bool) (l : list A) (k i : nat) :
  firstIndex p l k = Some i ->
  exists x,
    (k <= i)%nat /\ nth_error l (i - k) = Some x /\ p i x = true
    /\ forall j y, (k <= j < i)%nat -> nth_error l (j - k) = Some y -> p j y = false.
Proof.
  revert k. induction l as [|x l IH]; intros k; simpl; [discriminate|].
  destruct (p k x) eqn:Hp.
  - intros [= <-]. exists x. rewrite Nat.sub_diag. repeat split; auto. intros; lia.
  - intros Hfound. destruct (IH _ Hfound) as [y [Hle [Hnth [Hpy Hbefore]]]].
    exists y. split; [lia|]. split; [|split; [exact Hpy|]].
    + replace (i - k)%nat with (S (i - S k)) by lia. exact Hnth.
    + intros j z Hj Hz. destruct (Nat.eq_dec j k) as [->|Hne].
      * rewrite Nat.sub_diag in Hz. simpl in Hz. congruence.
      * apply Hbefore; [lia|]. replace (j - k)%nat with (S (j - S k)) in Hz by lia. exact Hz.
Qed.

Lemma firstIndex_None {A} (p : nat -> A -> bool) (l : list A) (k : nat) :
  firstIndex p l k = None ->
  forall j y, nth_error l j = Some y -> p (k + j)%nat y = false.
Proof.
  revert k. induction l as [|x l IH]; intros k; simpl; [intros _ [|j] y; discriminate|].
  destruct (p k x) eqn:Hp; [discriminate|]. intros Hnone [|j] y; simpl.
  - intros [= <-]. now rewrite Nat.add_0_r.
  - intros Hy. replace (k + S j)%nat with (S k + j)%nat by lia. now apply IH.
Qed.

Lemma candidate_true (used : gset nat) (inning : Z) (half : option Half) (index : nat)
    (scoring : BaseballScoringEvent) :
  candidate used inning half index scoring = true <->
  (index ∉ used) /\ se_inningNumber scoring = Some inning /\ se_half scoring = half.
Proof.
  unfold candidate. rewrite !andb_true_iff, negb_true_iff, bool_decide_eq_false.
  assert (optEqb Z.eqb (se_inningNumber scoring) (Some inning) = true
          <-> se_inningNumber scoring = Some inning) as ->.
  { destruct (se_inningNumber scoring) as [z|]; simpl; [|split; discriminate].
    rewrite Z.eqb_eq. split; congruence. }
  assert (optEqb halfEqb (se_half scoring) half = true <-> se_half scoring = half) as ->.
  { destruct (se_half scoring) as [[|]|], half as [[|]|]; simpl; split; congruence. }
  tauto.
Qed.

(** The two tiers of [findMatchingScoringEventIndex]. *)
Lemma findMatchingScoringEventIndex_Some (scoringTimeline : list BaseballScoringEvent)
    (used : gset nat) (inning : Z) (half : option Half) (event : FinalPlayByPlayEvent)
    (index : nat) :
  findMatchingScoringEventIndex scoringTimeline used inning half event = Some index ->
  exists scoring,
    nth_error scoringTimeline index = Some scoring
    /\ candidate used inning half index scoring = true
    /\ ((sameText event scoring = true
         /\ forall j other, (j < index)%nat -> nth_error scoringTimeline j = Some other ->
              candidate used inning half j other = true -> sameText event other = false)
        \/ (samePeopleAndRuns event scoring = true
            /\ (forall j other, nth_error scoringTimeline j = Some other ->
                  candidate used inning half j other = true -> sameText event other = false)
            /\ forall j other, (j < index)%nat -> nth_error scoringTimeline j = Some other ->
                 candidate used inning half j other = true ->
                 samePeopleAndRuns event other = false)).
Proof.
  unfold findMatchingScoringEventIndex.
  destruct (firstIndex _ scoringTimeline 0) as [i|] eqn:Htext.
  - intros [= <-]. apply firstIndex_Some in Htext as [sc [_ [Hnth [Hp Hbefore]]]].
    rewrite Nat.sub_0_r in Hnth. apply andb_true_iff in Hp as [Hcand Hsame].
    exists sc. split; [exact Hnth|]. split; [exact Hcand|]. left. split; [exact Hsame|].
    intros j other Hj Hother Hc. specialize (Hbefore j other).
    rewrite Nat.sub_0_r, Hc in Hbefore. apply Hbefore; [lia | exact Hother].
  - intros Hpeople. apply firstIndex_Some in Hpeople as [sc [_ [Hnth [Hp Hbefore]]]].
    rewrite Nat.sub_0_r in Hnth. apply andb_true_iff in Hp as [Hcand Hsame].
    exists sc. split; [exact Hnth|]. split; [exact Hcand|]. right. split; [exact Hsame|]. split.
    + intros j other Hother Hc. pose proof (firstIndex_None _ _ _ Htext j other Hother) as Hno.
      simpl in Hno. now rewrite Hc in Hno.
    + intros j other Hj Hother Hc. specialize (Hbefore j other).
      rewrite Nat.sub_0_r, Hc in Hbefore. apply Hbefore; [lia | exact Hother].
Qed.

Lemma findMatchingScoringEventIndex_None (scoringTimeline : list BaseballScoringEvent)
    (used : gset nat) (inning : Z) (half : option Half) (event : FinalPlayByPlayEvent) :
  findMatchingScoringEventIndex scoringTimeline used inning half event = None ->
  forall j other, nth_error scoringTimeline j = Some other ->
    candidate used inning half j other = true ->
    sameText event other = false /\ samePeopleAndRuns event other = false.
Proof.
  unfold findMatchingScoringEventIndex.
  destruct (firstIndex _ scoringTimeline 0) as [i|] eqn:Htext; [discriminate|].
  intros Hpeople j other Hother Hc.
  pose proof (firstIndex_None _ _ _ Htext j other Hother) as Hno1.
  pose proof (firstIndex_None _ _ _ Hpeople j other Hother) as Hno2.
  simpl in Hno1, Hno2. rewrite Hc in Hno1, Hno2. auto.
Qed.

Lemma isMatch_true (i : nat) (found : option nat) : isMatch i found = true <-> found = Some i.
Proof.
  unfold isMatch. destruct found as [j|]; simpl; [|split; discriminate].
  rewrite Nat.eqb_eq. split; congruence.
Qed.

Lemma timesMatched_snoc (trace : list (option nat)) (found : option nat) (i : nat) :
  timesMatched (trace ++ [found]) i
  = (timesMatched trace i + if isMatch i found then 1 else 0)%nat.
Proof.
  unfold timesMatched. rewrite List.filter_app, length_app. simpl.
  now destruct (isMatch i found).
Qed.

Lemma timesMatched_absent (trace : list (option nat)) (i : nat) :
  ~ In (Some i) trace -> timesMatched trace i = O.
Proof.
  intros Hnot. unfold timesMatched.
  destruct (List.filter (isMatch i) trace) as [|f fs] eqn:Hf; [reflexivity|].
  assert (In f (List.filter (isMatch i) trace)) as Hin by (rewrite Hf; now left).
  apply List.filter_In in Hin as [Hin Hm]. apply isMatch_true in Hm. subst. contradiction.
Qed.

Lemma traceInv_found (scoringTimeline : list BaseballScoringEvent) (used : gset nat)
    (trace : list (option nat)) (i : nat) :
  traceInv scoringTimeline used trace -> i ∉ used -> (i < length scoringTimeline)%nat ->
  traceInv scoringTimeline ({[i]} ∪ used) (trace ++ [Some i]).
Proof.
  intros [Hused [Honce Hrange]] Hfresh Hlt. split; [|split].
  - intros j. rewrite elem_of_union, elem_of_singleton, in_app_iff, Hused. simpl.
    split; [intros [->|Hin]; auto | intros [Hin|[[= ->]|[]]]; auto].
  - intros j. rewrite timesMatched_snoc. destruct (isMatch j (Some i)) eqn:Hm.
    + apply isMatch_true in Hm. injection Hm as ->.
      rewrite timesMatched_absent; [lia|]. now rewrite <- Hused.
    + specialize (Honce j). lia.
  - intros j Hin. apply in_app_iff in Hin as [Hin|[[= ->]|[]]]; auto.
Qed.

Lemma traceInv_none (scoringTimeline : list BaseballScoringEvent) (used : gset nat)
    (trace : list (option nat)) :
  traceInv scoringTimeline used trace -> traceInv scoringTimeline used (trace ++ [None]).
Proof.
  intros [Hused [Honce Hrange]]. split; [|split].
  - intros j. rewrite in_app_iff, Hused. simpl. split; [auto | intros [Hin|[[=]|[]]]; auto].
  - intros j. rewrite timesMatched_snoc. simpl. specialize (Honce j). lia.
  - intros j Hin. apply in_app_iff in Hin as [Hin|[[=]|[]]]; auto.
Qed.

Lemma unifyEvent_inStep (finalGame : StatBroadcastFinalGame)
    (scoringTimeline : list BaseballScoringEvent) (inning : Z) (currentHalf : option Half)
    (order : Z) (st : UnifyState) (used : gset nat) (trace : list (option nat))
    (event : FinalPlayByPlayEvent) :
  inStep scoringTimeline st used trace ->
  traceInv scoringTimeline used trace ->
  let after := unifyEvent finalGame scoringTimeline inning (currentHalf, order, st) event in
  let traced := traceEvent scoringTimeline inning (currentHalf, used, trace) event in
  fst (fst after) = fst (fst traced)
  /\ inStep scoringTimeline (snd after) (snd (fst traced)) (snd traced)
  /\ traceInv scoringTimeline (snd (fst traced)) (snd traced).
Proof.
  intros [Hused Hplays] Hinv. unfold unifyEvent, traceEvent.
  destruct (fe_type event); cbn [fst snd]; try (split; [reflexivity|]; split; [split|]; assumption).
  set (h := currentHalf).
  destruct (registerIf (fe_batter event) (sideOfHalf h) None (u_registry st)) as [batterId reg1].
  destruct (registerIf (fe_pitcher event) (otherSide (sideOfHalf h)) (Some "p") reg1)
    as [pitcherId reg2].
  cbn [fst snd]. rewrite Hused.
  destruct (findMatchingScoringEventIndex scoringTimeline used inning h event)
    as [index|] eqn:Hfound.
  - apply findMatchingScoringEventIndex_Some in Hfound as [scoring [Hnth [Hcand _]]].
    apply candidate_true in Hcand as [Hfresh [Hinning Hhalf]].
    split; [reflexivity|]. split; [split; [reflexivity|]|].
    + cbn [u_plays]. apply Forall2_app; [exact Hplays|]. constructor; [|constructor].
      unfold mergedWith. cbn. split; [reflexivity|]. split; [reflexivity|].
      exists scoring. rewrite Hnth. cbn. repeat split; auto.
    + apply traceInv_found; [exact Hinv | exact Hfresh|].
      apply nth_error_Some. congruence.
  - split; [reflexivity|]. split; [split; [reflexivity|]|].
    + cbn [u_plays]. apply Forall2_app; [exact Hplays|]. constructor; [|constructor].
      unfold mergedWith. cbn. auto.
    + now apply traceInv_none.
Qed.

Lemma unifyEvents_inStep (finalGame : StatBroadcastFinalGame)
    (scoringTimeline : list BaseballScoringEvent) (inning : Z)
    (events : list FinalPlayByPlayEvent) (currentHalf : option Half) (order : Z)
    (st : UnifyState) (used : gset nat) (trace : list (option nat)) :
  inStep scoringTimeline st used trace ->
  traceInv scoringTimeline used trace ->
  let after := fold_left (unifyEvent finalGame scoringTimeline inning) events (currentHalf, order, st) in
  let traced := fold_left (traceEvent scoringTimeline inning) events (currentHalf, used, trace) in
  inStep scoringTimeline (snd after) (snd (fst traced)) (snd traced)
  /\ traceInv scoringTimeline (snd (fst traced)) (snd traced).
Proof.
  revert currentHalf order st used trace.
  induction events as [|event events IH]; intros h order st used trace Hstep Hinv;
    cbn [fold_left].
  - cbn. auto.
  - pose proof (unifyEvent_inStep finalGame scoringTimeline inning h order st
                  used trace event Hstep Hinv) as Hone.
    cbn zeta in Hone.
    destruct (unifyEvent finalGame scoringTimeline inning (h, order, st) event)
      as [[h1 order1] st1].
    destruct (traceEvent scoringTimeline inning (h, used, trace) event)
      as [[h2 used2] trace2].
    cbn [fst snd] in Hone. destruct Hone as [-> [Hstep' Hinv']].
    now apply IH.
Qed.

Lemma unifyInning_inStep (finalGame : StatBroadcastFinalGame)
    (scoringTimeline : list BaseballScoringEvent) (st : UnifyState) (used : gset nat)
    (trace : list (option nat)) (inningBlock : FinalInningPlayByPlay) :
  inStep scoringTimeline st used trace ->
  traceInv scoringTimeline used trace ->
  let traced := traceInning scoringTimeline (used, trace) inningBlock in
  inStep scoringTimeline (unifyInning finalGame scoringTimeline st inningBlock)
    (fst traced) (snd traced)
  /\ traceInv scoringTimeline (fst traced) (snd traced).
Proof.
  intros Hstep Hinv. unfold unifyInning, traceInning. cbn [fst snd].
  pose proof (unifyEvents_inStep finalGame scoringTimeline (fi_inning inningBlock)
                (fi_events inningBlock) None 0 st used trace Hstep Hinv) as Hall.
  cbn zeta in Hall.
  destruct (fold_left (traceEvent scoringTimeline (fi_inning inningBlock))
              (fi_events inningBlock) (None, used, trace)) as [[h' used'] trace'].
  exact Hall.
Qed.

Lemma unifyPlayByPlay_inStep (finalGame : StatBroadcastFinalGame)
    (scoringTimeline : list BaseballScoringEvent) (playerRegistry : PlayerRegistry)
    (warnings : list string) :
  let st :=
    fold_left (unifyInning finalGame scoringTimeline) (playByPlayByInning finalGame)
      (MkUnify [] ∅ playerRegistry warnings) in
  let traced := fold_left (traceInning scoringTimeline) (playByPlayByInning finalGame) (∅, []) in
  inStep scoringTimeline st (fst traced) (snd traced)
  /\ traceInv scoringTimeline (fst traced) (snd traced).
Proof.
  assert (inStep scoringTimeline (MkUnify [] ∅ playerRegistry warnings) ∅ []) as Hstep
    by (split; [reflexivity | constructor]).
  assert (traceInv scoringTimeline ∅ []) as Hinv.
  { split; [|split].
    - intros i. split; [intros Hin; now apply not_elem_of_empty in Hin | intros []].
    - intros i. cbn. lia.
    - intros i []. }
  revert Hstep Hinv.
  generalize (MkUnify [] ∅ playerRegistry warnings) as st.
  generalize (∅ : gset nat) as used. generalize (@nil (option nat)) as trace.
  induction (playByPlayByInning finalGame) as [|block blocks IH];
    intros trace used st Hstep Hinv; cbn [fold_left]; [auto|].
  destruct (unifyInning_inStep finalGame scoringTimeline st used trace block Hstep Hinv)
    as [Hstep' Hinv'].
  destruct (traceInning scoringTimeline (used, trace) block) as [used' trace'].
  now apply IH.
Qed.

Lemma emitUnmatched_step (teamTokenLookup : gmap string TeamSide)
    (scoringTimeline : list BaseballScoringEvent) (st : UnifyState) (k : nat)
    (sc : BaseballScoringEvent) :
  nth_error scoringTimeline k = Some sc ->
  let st1 := emitUnmatched teamTokenLookup st (k, sc) in
  u_usedScoring st1 = u_usedScoring st
  /\ (bool_decide (k ∈ u_usedScoring st) = true -> u_plays st1 = u_plays st)
  /\ (bool_decide (k ∈ u_usedScoring st) = false ->
      exists play,
        u_plays st1 = (u_plays st ++ [play])%list /\ standaloneOf scoringTimeline play k).
Proof.
  intros Hk. unfold emitUnmatched.
  destruct (bool_decide (k ∈ u_usedScoring st)) eqn:Hused.
  - cbn. split; [reflexivity|]. split; [reflexivity | discriminate].
  - destruct (registerIf (se_batter sc) _ None (u_registry st)) as [batterId reg1].
    destruct (registerIf (se_pitcher sc) _ (Some "p") reg1) as [pitcherId reg2].
    cbn [u_usedScoring u_plays]. split; [reflexivity|]. split; [discriminate|].
    intros _. eexists. split; [reflexivity|]. exists sc. cbn. repeat split; auto.
Qed.

(** The second pass emits one standalone play for every entry that is
    not in the used set, in timeline order, and leaves the set alone. *)
Lemma emitUnmatched_fold (teamTokenLookup : gmap string TeamSide)
    (scoringTimeline l : list BaseballScoringEvent) (k : nat) (st : UnifyState) :
  (forall j sc, nth_error l j = Some sc -> nth_error scoringTimeline (k + j) = Some sc) ->
  let st' := fold_left (emitUnmatched teamTokenLookup) (combine (seq k (length l)) l) st in
  u_usedScoring st' = u_usedScoring st
  /\ exists extra,
       u_plays st' = (u_plays st ++ extra)%list
       /\ Forall2 (standaloneOf scoringTimeline) extra
            (List.filter (fun i => negb (bool_decide (i ∈ u_usedScoring st))) (seq k (length l))).
Proof.
  revert k st. induction l as [|sc l IH]; intros k st Hnth; cbn [length seq combine fold_left].
  - split; [reflexivity|]. exists []. split; [now rewrite app_nil_r | constructor].
  - assert (forall j sc', nth_error l j = Some sc' ->
              nth_error scoringTimeline (S k + j) = Some sc') as Hnth'.
    { intros j sc' Hj. replace (S k + j)%nat with (k + S j)%nat by lia. now apply Hnth. }
    assert (nth_error scoringTimeline k = Some sc) as Hk.
    { specialize (Hnth O sc eq_refl). now rewrite Nat.add_0_r in Hnth. }
    destruct (emitUnmatched_step teamTokenLookup scoringTimeline st k sc Hk)
      as [Hsame1 [Hskip Hemit]].
    set (st1 := emitUnmatched teamTokenLookup st (k, sc)) in *.
    destruct (IH (S k) st1 Hnth') as [Hsame [extra [Hplays Hall]]].
    rewrite Hsame1 in Hsame, Hall. split; [exact Hsame|].
    cbn [List.filter]. destruct (bool_decide (k ∈ u_usedScoring st)) eqn:Hused; cbn [negb].
    + exists extra. rewrite Hplays, (Hskip eq_refl). auto.
    + destruct (Hemit eq_refl) as [play [Hplay Hstandalone]].
      exists (play :: extra). rewrite Hplays, Hplay, <- app_assoc. split; [reflexivity|].
      now constructor.
Qed.

Lemma in_trace_matched (trace : list (option nat)) (i : nat) :
  In (Some i) trace <-> existsb (isMatch i) trace = true.
Proof.
  rewrite existsb_exists. split.
  - intros Hin. exists (Some i). split; [exact Hin | now apply isMatch_true].
  - intros [f [Hin Hf]]. apply isMatch_true in Hf. now subst.
Qed.

Lemma timesMatched_present (trace : list (option nat)) (i : nat) :
  In (Some i) trace -> (1 <= timesMatched trace i)%nat.
Proof.
  intros Hin. unfold timesMatched.
  assert (In (Some i) (List.filter (isMatch i) trace)) as Hf
    by (apply List.filter_In; split; [exact Hin | now apply isMatch_true]).
  destruct (List.filter (isMatch i) trace); [destruct Hf | simpl; lia].
Qed.

(** C1 (as it is worded).  The two texts differ by a comma and a full
    stop, so they are not equal after normalizing case and whitespace,
    and the batter names differ as well; the entry is matched all the
    same, because the text normalization drops punctuation. *)
Lemma punctuation_is_normalized_away :
  caseAndWhitespaceNormalized (se_text punctuatedEntry)
  <> caseAndWhitespaceNormalized (fe_text punctuatedEvent)
  /\ samePeopleAndRuns punctuatedEvent punctuatedEntry = false
  /\ findMatchingScoringEventIndex [punctuatedEntry] ∅ 1 (Some top) punctuatedEvent = Some O.
Proof.
  split; [vm_compute; discriminate|]. split; vm_compute; reflexivity.
Qed.

(** C1 (amended).  The unified play list is the play-by-play plays, in
    order, followed by one standalone play (source scoring_summary,
    identifier "S-<index + 1>") for every scoring-summary entry that no
    play-by-play play was matched with.  A play-by-play play is matched by
    [findMatchingScoringEventIndex], which looks among the entries not
    used so far, in the inning and half of the event, first for one with
    the same normalized play text and only when there is none for one with
    the same normalized batter and pitcher names and the same run count,
    taking the first in either case; the normalized play text is the text
    in lower case with every run of characters other than letters, digits
    and "_" replaced by one space, and trimmed.  A matched entry lies in
    the inning and half of its play and gives it its scoring decision and,
    when it has one, its decision context and fielder data; every entry of
    the timeline is either matched with exactly one play-by-play play and
    not emitted, or matched with none and emitted exactly once. *)
Theorem unified_plays_use_each_scoring_entry_once (finalGame : StatBroadcastFinalGame)
    (scoringTimeline : list BaseballScoringEvent) (playerRegistry : PlayerRegistry)
    (teamTokenLookup : gmap string TeamSide) (warnings : list string) :
  let plays :=
    buildUnifiedPlays finalGame scoringTimeline playerRegistry teamTokenLookup warnings in
  let trace := scoringMatchTrace finalGame scoringTimeline in
  let unmatched := unmatchedIndices trace (length scoringTimeline) in
  (exists merged standalone,
     plays = (merged ++ standalone)%list
     /\ Forall2 (mergedWith scoringTimeline) merged trace
     /\ Forall2 (standaloneOf scoringTimeline) standalone unmatched)
  /\ (forall i, (i < length scoringTimeline)%nat ->
        (timesMatched trace i = 1%nat /\ ~ In i unmatched)
        \/ (timesMatched trace i = 0%nat /\ In i unmatched))
  /\ List.NoDup unmatched
  /\ (forall used inning half event index,
        findMatchingScoringEventIndex scoringTimeline used inning half event = Some index ->
        exists scoring,
          nth_error scoringTimeline index = Some scoring
          /\ (index ∉ used) /\ se_inningNumber scoring = Some inning /\ se_half scoring = half
          /\ ((sameText event scoring = true
               /\ forall j other, (j < index)%nat -> nth_error scoringTimeline j = Some other ->
                    candidate used inning half j other = true -> sameText event other = false)
              \/ (samePeopleAndRuns event scoring = true
                  /\ (forall j other, nth_error scoringTimeline j = Some other ->
                        candidate used inning half j other = true ->
                        sameText event other = false)
                  /\ forall j other, (j < index)%nat ->
                       nth_error scoringTimeline j = Some other ->
                       candidate used inning half j other = true ->
                       samePeopleAndRuns event other = false)))
  /\ (forall used inning half event,
        findMatchingScoringEventIndex scoringTimeline used inning half event = None ->
        forall j other, nth_error scoringTimeline j = Some other ->
          candidate used inning half j other = true ->
          sameText event other = false /\ samePeopleAndRuns event other = false)
  /\ (forall used inning half j other,
        candidate used inning half j other = true <->
        (j ∉ used) /\ se_inningNumber other = Some inning /\ se_half other = half)
  /\ (forall event scoring,
        (sameText event scoring = true <->
         normalizePlayText (Some (se_text scoring)) = normalizePlayText (Some (fe_text event)))
        /\ (samePeopleAndRuns event scoring = true <->
            normalizeName (se_batter scoring) = normalizeName (fe_batter event)
            /\ normalizeName (se_pitcher scoring) = normalizeName (fe_pitcher event)
            /\ se_runsScoredOnPlay scoring = countRunsScored (fe_text event)))
  /\ (forall value,
        normalizePlayText (Some value)
        = trim (collapseSpaces (replaceAll reNonWord (fun _ => " ") (toLowerCase value)))).
Proof.
  intros plays trace unmatched.
  destruct (unifyPlayByPlay_inStep finalGame scoringTimeline playerRegistry warnings)
    as [[Hused Hmerged] [Hset [Honce Hrange]]].
  fold (scoringMatchTrace finalGame scoringTimeline) in Hmerged, Hset, Honce, Hrange.
  fold trace in Hmerged, Hset, Honce, Hrange.
  set (st1 := fold_left (unifyInning finalGame scoringTimeline) (playByPlayByInning finalGame)
                (MkUnify [] ∅ playerRegistry warnings)) in *.
  set (used := fst (fold_left (traceInning scoringTimeline) (playByPlayByInning finalGame) (∅, [])))
    in *.
  split; [|split; [|split; [|split; [|split; [|split; [|split]]]]]].
  - destruct (emitUnmatched_fold teamTokenLookup scoringTimeline scoringTimeline 0 st1)
      as [_ [extra [Hplays Hall]]]; [auto|].
    exists (u_plays st1), extra. split; [exact Hplays|]. split; [exact Hmerged|].
    replace unmatched
      with (List.filter (fun i => negb (bool_decide (i ∈ u_usedScoring st1)))
              (seq 0 (length scoringTimeline))); [exact Hall|].
    unfold unmatched, unmatchedIndices. apply List.filter_ext. intros i. f_equal.
    rewrite Hused. destruct (existsb (isMatch i) trace) eqn:Hex.
    + apply bool_decide_eq_true, Hset. now apply in_trace_matched.
    + apply bool_decide_eq_false. intros Hin. apply Hset, in_trace_matched in Hin. congruence.
  - intros i Hi. destruct (existsb (isMatch i) trace) eqn:Hex.
    + left. apply in_trace_matched in Hex. split.
      * pose proof (timesMatched_present trace i Hex). specialize (Honce i). lia.
      * unfold unmatched, unmatchedIndices. intros Hin. apply List.filter_In in Hin as [_ Hno].
        apply in_trace_matched in Hex. now rewrite Hex in Hno.
    + right. split.
      * apply timesMatched_absent. intros Hin. apply in_trace_matched in Hin. congruence.
      * unfold unmatched, unmatchedIndices. apply List.filter_In. split.
        -- apply in_seq. lia.
        -- now rewrite Hex.
  - unfold unmatched, unmatchedIndices. apply List.NoDup_filter, List.seq_NoDup.
  - intros used' inning half event index Hfound.
    apply findMatchingScoringEventIndex_Some in Hfound as [scoring [Hnth [Hcand Htier]]].
    exists scoring. apply candidate_true in Hcand as [Hfresh [Hinning Hhalf]]. auto.
  - apply findMatchingScoringEventIndex_None.
  - intros. apply candidate_true.
  - intros event scoring. unfold sameText, samePeopleAndRuns.
    rewrite !andb_true_iff, !String.eqb_eq, Z.eqb_eq. tauto.
  - reflexivity.
Qed.

Lemma unified_plays_use_each_scoring_entry_once_witness :
  (timesMatched (scoringMatchTrace sampleFinalGame sampleScoringTimeline) 0 = 1%nat
   /\ ~ In O (unmatchedIndices (scoringMatchTrace sampleFinalGame sampleScoringTimeline) 2))
  /\ (timesMatched (scoringMatchTrace sampleFinalGame sampleScoringTimeline) 1 = 0%nat
      /\ In 1%nat (unmatchedIndices (scoringMatchTrace sampleFinalGame sampleScoringTimeline) 2)).
Proof.
  destruct (unified_plays_use_each_scoring_entry_once sampleFinalGame sampleScoringTimeline
              createPlayerRegistry sampleTeamLookup []) as [_ [Honce _]].
  split.
  - destruct (Honce O) as [Hmatched|[Hnot _]]; [simpl; lia | exact Hmatched|].
    vm_compute in Hnot. discriminate.
  - destruct (Honce 1%nat) as [[Hmatched _]|Hnot]; [simpl; lia | | exact Hnot].
    vm_compute in Hmatched. discriminate.
Defined.

(** The reworded RBI single is merged into its play-by-play play, which
    carries the fielder code of the scoring decision; the entry without a
    counterpart is emitted after the play-by-play plays. *)
Example unified_sample_plays :
  map (fun p => (up_playId p, up_source p, decisionRaw (up_scoring p),
                 bb_fielderCodes (up_battedBall p)))
    (buildUnifiedPlays sampleFinalGame sampleScoringTimeline createPlayerRegistry
       sampleTeamLookup [])
  = [("P-1-top-1", play_by_play, Some "1B 8 1RBI", [8]);
     ("P-1-top-2", play_by_play, None, []);
     ("S-2", scoring_summary, Some "HR 7 1RBI", [7])].
Proof. vm_compute. reflexivity. Qed.

(** ** The embedding on the inputs of the repository's tests *)

Example test_play_parser :
  parsePlayDescription
    "Goldstein,Cade singled to right field, RBI (3-2 BKSBFB); Kelly,Rowan scored."
  = (single, ["run_scored"; "rbi"; "single"])
  /\ fst (parsePlayDescription "Mendez,Jonathan struck out looking (1-2 KKBK).") = strikeout
  /\ parsePlayDescription
       "Karliner,Noah struck out looking (3-2 BKKBBK); Esquer,Xavier is out caught stealing, in a double play."
     = (caught_stealing, ["double_play"; "caught_stealing"])
  /\ parsePlayDescription "Kelly,Rowan advanced to third base on a wild pitch."
     = (wild_pitch, ["wild_pitch"]).
Proof. vm_compute. repeat split. Qed.

Example test_pitch_context :
  option_map (fun c => (finalCount c, rawSequence c, map pitchDescription (pitches c)))
    (parsePitchContextFromText
       "Goldstein,Cade singled to right field, RBI (3-2 BKSBFB); Kelly,Rowan scored.")
  = Some (Some (3, 2), Some "BKSBFB",
          [ball; called_strike; swinging_strike; ball; foul; ball])
  /\ option_map (fun c => (finalCount c, rawSequence c))
       (parsePitchContextFromText
          "Husovsky,Nick homered to right field (383 ft), 2nd of season, RBI (1-0 B).")
     = Some (Some (1, 0), Some "B").
Proof. vm_compute. repeat split. Qed.

Example test_scoring_decision :
  option_map (fun c => (playCode c, fielderCodes c, fieldLocations c, rbi c))
    (parseScoringDecisionContext (Some "HR 9 1RBI"))
  = Some (Some "HR", [9], [MkLocation 9 "RF" "right field"], Some 1)
  /\ option_map (fun c => (playCode c, fielderCodes c, fieldLocations c))
       (resolveScoringDecisionContext (Some "HR 9 1RBI")
          "Example batter homered to center field, RBI (2-1 BKS).")
     = Some (Some "HR", [8], [MkLocation 8 "CF" "center field"])
  /\ option_map (fun c => (fielderCodes c, fieldLocations c))
       (resolveScoringDecisionContext (Some "1RBI")
          "Stockman,Tucker sacrifice fly to rf, RBI (2-2 KBBF);")
     = Some ([9], [MkLocation 9 "RF" "right field"]).
Proof. vm_compute. repeat split. Qed.

Example test_display_names :
  normalizePlayerDisplayName (Some "Kelly,Rowan") = Some "Rowan Kelly"
  /\ normalizePlayerDisplayName (Some "Clark,Camden") = Some "Camden Clark"
  /\ normalizePlayerDisplayName (Some "Rowan Kelly") = Some "Rowan Kelly"
  /\ normalizePlayerDisplayName None = None.
Proof. vm_compute. repeat split. Qed.

Example test_derived_states :
  statesInOrder (H := plainText) (H0 := reversedText) ninthInningFeed (sampleSummary 7 10)
  = [Some (Some 7, Some 10, Some 1); Some (Some 7, Some 10, Some 2);
     Some (Some 7, Some 10, Some 3); Some (Some 7, Some 10, Some 1)]
  /\ map isSubstitution
       (extractLivePlayEvents (H := plainText) (H0 := reversedText) substitutionFeed)
     = [true; true; true; false]
  /\ statesInOrder (H := plainText) (H0 := reversedText) substitutionFeed (sampleSummary 7 10)
     = [Some (Some 7, Some 10, Some 1); Some (Some 7, Some 10, Some 1);
        Some (Some 7, Some 10, Some 1); Some (Some 7, Some 10, Some 2)].
Proof. vm_compute. repeat split. Qed.

Example test_tweet_blocks :
  composePlayBlocks (H := plainText) (H0 := keepNames) seventhInningInput
  = [ "Bottom 7th | 2 Outs";
      "Wake Forest - 4" ++ nl ++ "Houston - 6";
      "Batter Name struck out looking (0-2 KKFK).";
      "Pitching | Pitcher Name - P 32";
      "#NCAABaseball" ]
  /\ map (fun p =>
            hd_error (composePlayBlocks (H := plainText) (H0 := keepNames)
                        (MkPlayTweetInput p (sampleSummary 7 10)
                           (deriveLivePlayStates (H := plainText)
                              (extractLivePlayEvents (H := plainText) (H0 := reversedText)
                                 ninthInningFeed)
                              (sampleSummary 7 10) !! key p)
                           (Some (Finite 280)) None)))
       (extractLivePlayEvents (H := plainText) (H0 := reversedText) ninthInningFeed)
     = [Some "Top 9th | 1 Out"; Some "Top 9th | 2 Outs"; Some "Mid 9th"; Some "Bottom 9th | 1 Out"].
Proof. vm_compute. repeat split. Qed.
